(** * UAE parking dashboard: slot store, message dispatcher, reconnect policy
      and offline drift simulator

    Shallow embedding of [src/components/UaeParkingDashboard.tsx] (the
    component with the WebSocket feed) and of the older, feed-less variant of
    the same component.  The React component keeps its state in [useState]
    cells and [useRef] boxes; here that state is one record, [Dashboard], and
    every callback of the component is a function on it.

    Conventions used throughout.
    - A JavaScript object is modelled by a record that has one [option] field
      per key the program reads; [None] is JavaScript's [undefined].
    - Numbers that the program uses as counters, floors, minutes and epoch
      milliseconds are integers ([Z], [nat] for the retry counter, which only
      ever starts at 0 and is incremented).
    - The transition probabilities of the simulator are decimal constants;
      they are kept exact, as rationals ([Q]), and the result of
      [Math.random()] is an argument of the model.
    - [Date.now()] is an argument of the model.
    - A callback does not render: its [setState] calls are queued and React
      applies them, in order, in a later turn of the event loop, where it
      also runs the effects.  The cells of [Dashboard] hold the queued
      updates already applied in that order; what is computed at a render
      (the closure of the drift callback, the drift interval) changes only
      at the event [Render]. *)

From Stdlib Require Import ZArith QArith Lia DecimalString.
From stdpp Require Import base decidable option list strings gmap.

Open Scope string_scope.
Open Scope list_scope.
Open Scope Z_scope.

(** ** Slot records *)

(** [state: 'free' | 'available' | 'occupied'] *)
Inductive SlotState : Set := free | available | occupied.

#[global] Instance SlotState_eq_dec : EqDecision SlotState.
Proof. solve_decision. Defined.

(** A slot object as it exists at run time.  The first six fields are those of
    [interface ParkingSlot]; payloads are not validated, so any of them may be
    absent.  [slot_id], [status] and [timestamp] are the alternative keys that
    the normaliser also reads from inbound elements. *)
Record ParkingSlot : Set := mkSlot {
  id : option string;
  state : option SlotState;
  lastUpdated : option Z;
  zone : option string;
  floor : option Z;
  duration : option Z;
  slot_id : option string;
  status : option SlotState;
  timestamp : option Z
}.

#[global] Instance ParkingSlot_eq_dec : EqDecision ParkingSlot.
Proof. solve_decision. Defined.

(** The empty object [{}]. *)
Definition emptyObject : ParkingSlot :=
  mkSlot None None None None None None None None None.

(** ** JavaScript's [||] on optional values *)

(** Which present values are falsy: the number 0 and the empty string.  The
    three state literals are non-empty strings, hence truthy. *)
Class Falsy (A : Type) := falsy : A -> bool.
#[global] Instance Falsy_Z : Falsy Z := fun z => Z.eqb z 0.
#[global] Instance Falsy_string : Falsy string := fun s => String.eqb s "".
#[global] Instance Falsy_SlotState : Falsy SlotState := fun _ => false.

Definition truthy {A} `{Falsy A} (x : option A) : bool :=
  match x with
  | Some v => negb (falsy v)
  | None => false
  end.

(** [x || y] where [y] may itself be undefined. *)
Definition js_or {A} `{Falsy A} (x y : option A) : option A :=
  if truthy x then x else y.

(** [x || d] where [d] is a literal or [Date.now()]. *)
Definition js_or_default {A} `{Falsy A} (x : option A) (d : A) : A :=
  match x with
  | Some v => if falsy v then d else v
  | None => d
  end.

(** ** Object spread *)

(** One key of [{...base, ...over}]: the key of [over] wins when it is
    present. *)
Definition overlay {A} (over base : option A) : option A :=
  match over with
  | Some v => Some v
  | None => base
  end.

(** [{...base, ...over}] *)
Definition spread (base over : ParkingSlot) : ParkingSlot :=
  {| id := overlay (id over) (id base);
     state := overlay (state over) (state base);
     lastUpdated := overlay (lastUpdated over) (lastUpdated base);
     zone := overlay (zone over) (zone base);
     floor := overlay (floor over) (floor base);
     duration := overlay (duration over) (duration base);
     slot_id := overlay (slot_id over) (slot_id base);
     status := overlay (status over) (status base);
     timestamp := overlay (timestamp over) (timestamp base) |}.

(** [{...s, lastUpdated: t}] *)
Definition with_lastUpdated (s : ParkingSlot) (t : Z) : ParkingSlot :=
  {| id := id s; state := state s; lastUpdated := Some t; zone := zone s;
     floor := floor s; duration := duration s; slot_id := slot_id s;
     status := status s; timestamp := timestamp s |}.

(** [{...s, duration: d}] *)
Definition with_duration (s : ParkingSlot) (d : Z) : ParkingSlot :=
  {| id := id s; state := state s; lastUpdated := lastUpdated s;
     zone := zone s; floor := floor s; duration := Some d;
     slot_id := slot_id s; status := status s; timestamp := timestamp s |}.

(** [{...s, state: st, lastUpdated: t, duration: d}] *)
Definition with_flip (s : ParkingSlot) (st : SlotState) (t d : Z)
  : ParkingSlot :=
  {| id := id s; state := Some st; lastUpdated := Some t; zone := zone s;
     floor := floor s; duration := Some d; slot_id := slot_id s;
     status := status s; timestamp := timestamp s |}.

(** ** Inbound envelopes *)

(** A value found under a key of a [displays] mapping: the loop over
    [Object.entries] keeps it only when
    [typeof value === 'object' && value !== null]. *)
Inductive DisplayEntry : Set :=
  | EntryObject (body : ParkingSlot)
  | EntryOther.

(** [data.slots]: the program only ever asks whether it is a (truthy)
    array. *)
Inductive SlotsField : Set :=
  | SlotsAbsent
  | SlotsList (elements : list ParkingSlot).

(** [data.displays]: absent (or falsy, or not an object), an array, or a keyed
    object whose entries are listed in [Object.entries] order. *)
Inductive DisplaysField : Set :=
  | DisplaysAbsent
  | DisplaysList (elements : list ParkingSlot)
  | DisplaysMap (entries : list (string * DisplayEntry)).

(** A payload that is a plain object: the keys the dispatcher reads.  [body]
    is the same object read as a partial slot (the [single_update] case). *)
Record DataObject : Set := mkData {
  slots : SlotsField;
  displays : DisplaysField;
  updates : option (list ParkingSlot);
  updateCount : option Z;
  body : ParkingSlot
}.

(** [message.data] is [any].  Elements of arrays are taken to be objects (a
    primitive element reads like [{}]; a [null] element is outside the
    model). *)
Inductive Payload : Set :=
  | PNull
  | PPrimitive
  | PArray (elements : list ParkingSlot)
  | PObject (o : DataObject).

Record WebSocketMessage : Set := mkMessage {
  type : string;
  data : Payload
}.

(** ** Normalisation of one inbound element *)

(** The object literal built for an element of a [displays] array or of a
    bare array. *)
Definition normalizeElement (now : Z) (slot : ParkingSlot) : ParkingSlot :=
  {| id := Some (js_or_default (js_or (id slot) (slot_id slot)) "Unknown");
     state := Some (js_or_default (js_or (state slot) (status slot)) free);
     lastUpdated :=
       Some (js_or_default (js_or (lastUpdated slot) (timestamp slot)) now);
     zone := Some (js_or_default (zone slot) "A");
     floor := Some (js_or_default (floor slot) 1);
     duration := Some (js_or_default (duration slot) 0);
     slot_id := None; status := None; timestamp := None |}.

(** The object literal pushed for one entry of a [displays] mapping. *)
Definition normalizeEntry (now : Z) (key : string) (value : ParkingSlot)
  : ParkingSlot :=
  {| id := Some key;
     state := Some (js_or_default (js_or (state value) (status value)) free);
     lastUpdated :=
       Some (js_or_default (js_or (lastUpdated value) (timestamp value)) now);
     zone := Some (js_or_default (zone value) "A");
     floor := Some (js_or_default (floor value) 1);
     duration := Some (js_or_default (duration value) 0);
     slot_id := None; status := None; timestamp := None |}.

(** [Object.entries(displaysData).forEach(...)] *)
Fixpoint entriesToSlots (now : Z) (entries : list (string * DisplayEntry))
  : list ParkingSlot :=
  match entries with
  | [] => []
  | (key, EntryObject value) :: rest =>
      normalizeEntry now key value :: entriesToSlots now rest
  | (_, EntryOther) :: rest => entriesToSlots now rest
  end.

(** The [displays] branch, shared by [initial_data] and [status]. *)
Definition slotsFromDisplays (now : Z) (d : DisplaysField)
  : list ParkingSlot :=
  match d with
  | DisplaysAbsent => []
  | DisplaysList l => normalizeElement now <$> l
  | DisplaysMap entries => entriesToSlots now entries
  end.

(** The [let slots = []; if ... else if ... else if ...] chain of the
    [initial_data] case, for a payload that passed
    [message.data && typeof message.data === 'object']. *)
Definition initialDataSlots (now : Z) (d : Payload) : list ParkingSlot :=
  match d with
  | PObject o =>
      match slots o with
      | SlotsList l => l
      | SlotsAbsent => slotsFromDisplays now (displays o)
      end
  | PArray l => normalizeElement now <$> l
  | PNull | PPrimitive => []
  end.

(** ** Delta application *)

(** [{ ...slot, ...update, lastUpdated: update.lastUpdated || Date.now() }] *)
Definition mergeUpdate (now : Z) (slot update : ParkingSlot) : ParkingSlot :=
  with_lastUpdated (spread slot update)
                   (js_or_default (lastUpdated update) now).

(** One iteration of [bulkData.updates.forEach]: [findIndex] returns the first
    index whose [id] is strictly equal to the update's, and the element at
    that index is replaced. *)
Definition applyUpdate (now : Z) (updatedSlots : list ParkingSlot)
    (update : ParkingSlot) : list ParkingSlot :=
  match list_find (fun slot => id slot = id update) updatedSlots with
  | Some (index, slot) =>
      <[index := mergeUpdate now slot update]> updatedSlots
  | None => updatedSlots
  end.

(** The state updater of the [bulk_update] case. *)
Definition bulkUpdate (now : Z) (upds prevSlots : list ParkingSlot)
  : list ParkingSlot :=
  foldl (applyUpdate now) prevSlots upds.

(** The state updater of the [single_update] case. *)
Definition singleUpdate (now : Z) (update : ParkingSlot)
    (prevSlots : list ParkingSlot) : list ParkingSlot :=
  (fun slot => if decide (id slot = id update)
               then mergeUpdate now slot update
               else slot) <$> prevSlots.

(** ** Component state *)

Inductive ConnectionStatus : Set :=
  connecting | connected | disconnected | error.

#[global] Instance ConnectionStatus_eq_dec : EqDecision ConnectionStatus.
Proof. solve_decision. Defined.

(** The [useState] cells and [useRef] boxes of the component.
    - [reconnectTimers]: the delays of the [setTimeout] retry timers that
      were scheduled and have not fired yet.
    - [console]: the envelopes written by the first [console.log] of the
      dispatcher.
    - [driftInterval]: the interval installed by the last run of the drift
      effect, with the connection status its callback closed over; [None]
      when the effect installed none.
    - [renderThrows]: a state updater is queued that raises a [TypeError]
      when React runs it, at the next render. *)
Record Dashboard : Set := mkDashboard {
  connectionStatus : ConnectionStatus;
  wsConnection : bool;
  reconnectAttempts : nat;
  reconnectTimers : list Z;
  parkingSlots : list ParkingSlot;
  lastMessageTime : Z;
  backendStatus : option Payload;
  statusHistory : list (Z * Payload);
  console : list WebSocketMessage;
  driftInterval : option ConnectionStatus;
  renderThrows : bool
}.

Definition setConnectionStatus (s : ConnectionStatus) (st : Dashboard) :=
  mkDashboard s (wsConnection st) (reconnectAttempts st) (reconnectTimers st)
    (parkingSlots st) (lastMessageTime st) (backendStatus st)
    (statusHistory st) (console st) (driftInterval st) (renderThrows st).

Definition setWsConnection (b : bool) (st : Dashboard) :=
  mkDashboard (connectionStatus st) b (reconnectAttempts st)
    (reconnectTimers st) (parkingSlots st) (lastMessageTime st)
    (backendStatus st) (statusHistory st) (console st) (driftInterval st) (renderThrows st).

Definition setReconnectAttempts (n : nat) (st : Dashboard) :=
  mkDashboard (connectionStatus st) (wsConnection st) n (reconnectTimers st)
    (parkingSlots st) (lastMessageTime st) (backendStatus st)
    (statusHistory st) (console st) (driftInterval st) (renderThrows st).

Definition setReconnectTimers (l : list Z) (st : Dashboard) :=
  mkDashboard (connectionStatus st) (wsConnection st) (reconnectAttempts st)
    l (parkingSlots st) (lastMessageTime st) (backendStatus st)
    (statusHistory st) (console st) (driftInterval st) (renderThrows st).

Definition setParkingSlots (l : list ParkingSlot) (st : Dashboard) :=
  mkDashboard (connectionStatus st) (wsConnection st) (reconnectAttempts st)
    (reconnectTimers st) l (lastMessageTime st) (backendStatus st)
    (statusHistory st) (console st) (driftInterval st) (renderThrows st).

Definition setLastMessageTime (t : Z) (st : Dashboard) :=
  mkDashboard (connectionStatus st) (wsConnection st) (reconnectAttempts st)
    (reconnectTimers st) (parkingSlots st) t (backendStatus st)
    (statusHistory st) (console st) (driftInterval st) (renderThrows st).

Definition setBackendStatus (d : Payload) (st : Dashboard) :=
  mkDashboard (connectionStatus st) (wsConnection st) (reconnectAttempts st)
    (reconnectTimers st) (parkingSlots st) (lastMessageTime st) (Some d)
    (statusHistory st) (console st) (driftInterval st) (renderThrows st).

Definition setStatusHistory (h : list (Z * Payload)) (st : Dashboard) :=
  mkDashboard (connectionStatus st) (wsConnection st) (reconnectAttempts st)
    (reconnectTimers st) (parkingSlots st) (lastMessageTime st)
    (backendStatus st) h (console st) (driftInterval st) (renderThrows st).

Definition consoleLog (m : WebSocketMessage) (st : Dashboard) :=
  mkDashboard (connectionStatus st) (wsConnection st) (reconnectAttempts st)
    (reconnectTimers st) (parkingSlots st) (lastMessageTime st)
    (backendStatus st) (statusHistory st) (console st ++ [m])
    (driftInterval st) (renderThrows st).

Definition setDriftInterval (i : option ConnectionStatus) (st : Dashboard) :=
  mkDashboard (connectionStatus st) (wsConnection st) (reconnectAttempts st)
    (reconnectTimers st) (parkingSlots st) (lastMessageTime st)
    (backendStatus st) (statusHistory st) (console st) i (renderThrows st).

Definition setRenderThrows (b : bool) (st : Dashboard) :=
  mkDashboard (connectionStatus st) (wsConnection st) (reconnectAttempts st)
    (reconnectTimers st) (parkingSlots st) (lastMessageTime st)
    (backendStatus st) (statusHistory st) (console st) (driftInterval st) b.

(** ** The dispatcher *)

(** A call of the dispatcher either returns or is left by a [TypeError] (a
    property read on [null] or [undefined]) that [ws.onmessage] catches; a
    render either returns or raises outside every [try], and React then
    unmounts the component.  Each outcome carries the state reached. *)
Inductive Outcome : Set :=
  | Returned (st : Dashboard)
  | Threw (st : Dashboard)
  | Unmounted (st : Dashboard).

Definition stateOf (o : Outcome) : Dashboard :=
  match o with
  | Returned st => st
  | Threw st => st
  | Unmounted st => st
  end.

(** [message.data && typeof message.data === 'object'] *)
Definition isObject (d : Payload) : bool :=
  match d with
  | PArray _ | PObject _ => true
  | PNull | PPrimitive => false
  end.

(** [[...prev.slice(-9), entry]] *)
Definition pushHistory (entry : Z * Payload) (prev : list (Z * Payload))
  : list (Z * Payload) :=
  drop (length prev - 9) prev ++ [entry].

(** The [status] case, after the [console.log]. *)
Definition handleStatus (now : Z) (d : Payload) (st : Dashboard)
  : Dashboard :=
  if isObject d then
    let st1 := setStatusHistory (pushHistory (now, d) (statusHistory st))
                 (setBackendStatus d st) in
    match d with
    | PObject o =>
        let newParkingSlots := slotsFromDisplays now (displays o) in
        if (0 <? length newParkingSlots)%nat
        then setParkingSlots newParkingSlots st1
        else st1
    | _ => st1
    end
  else st.

(** The [initial_data] case. *)
Definition handleInitialData (now : Z) (d : Payload) (st : Dashboard)
  : Dashboard :=
  if isObject d then
    let slots := initialDataSlots now d in
    if (0 <? length slots)%nat then setParkingSlots slots st else st
  else st.

(** The [bulk_update] case.  The queued state updater calls
    [bulkData.updates.forEach]: without an [updates] array it raises when
    React runs it, at the next render, whatever the store holds.  The call
    itself goes on to the last [console.log], whose template literal reads
    [bulkData.updateCount]; that raises at once when the payload is
    [null]. *)
Definition handleBulkUpdate (now : Z) (d : Payload) (st : Dashboard)
  : Outcome :=
  match d with
  | PObject o =>
      match updates o with
      | Some upds =>
          Returned (setParkingSlots (bulkUpdate now upds (parkingSlots st)) st)
      | None => Returned (setRenderThrows true st)
      end
  | PArray _ | PPrimitive => Returned (setRenderThrows true st)
  | PNull => Threw (setRenderThrows true st)
  end.

(** The [single_update] case: the payload itself is the partial slot.  An
    array or a primitive has none of the slot keys.  [null] has no
    properties at all: the callback of [prevSlots.map] reads
    [singleUpdate.id] once per slot, so the queued updater raises at the
    next render exactly when the store is not empty, and the last
    [console.log] of the call reads [singleUpdate.id] and raises at
    once. *)
Definition handleSingleUpdate (now : Z) (d : Payload) (st : Dashboard)
  : Outcome :=
  match d with
  | PObject o =>
      Returned (setParkingSlots (singleUpdate now (body o) (parkingSlots st)) st)
  | PArray _ | PPrimitive =>
      Returned (setParkingSlots
                  (singleUpdate now emptyObject (parkingSlots st)) st)
  | PNull =>
      Threw (match parkingSlots st with
             | [] => st
             | _ :: _ => setRenderThrows true st
             end)
  end.

(** The [default] case. *)
Definition handleUnknown (d : Payload) (st : Dashboard) : Dashboard :=
  match d with
  | PObject o =>
      match slots o with
      | SlotsList l => setParkingSlots l st
      | SlotsAbsent => st
      end
  | _ => st
  end.

(** [handleWebSocketMessage] *)
Definition handleWebSocketMessage (now : Z) (message : WebSocketMessage)
    (st : Dashboard) : Outcome :=
  let st := consoleLog message st in
  let t := type message in
  if String.eqb t "initial_data" then
    Returned (handleInitialData now (data message) st)
  else if String.eqb t "bulk_update" then
    handleBulkUpdate now (data message) st
  else if String.eqb t "single_update" then
    handleSingleUpdate now (data message) st
  else if String.eqb t "system_status" then Returned st
  else if String.eqb t "status" then
    Returned (handleStatus now (data message) st)
  else if String.eqb t "ping" then Returned st
  else if String.eqb t "error" then Returned st
  else Returned (handleUnknown (data message) st).

(** ** Connection manager *)

Definition maxReconnectAttempts : nat := 5.

(** [Math.min(1000 * Math.pow(2, reconnectAttempts.current), 30000)] *)
Definition reconnectDelay (attempts : nat) : Z :=
  Z.min (1000 * 2 ^ Z.of_nat attempts) 30000.

(** [connectWebSocket].  [readyOpen] is what
    [wsRef.current?.readyState === WebSocket.OPEN] evaluates to and [created]
    tells whether [new WebSocket(wsUrl)] returned rather than threw. *)
Definition connectWebSocket (readyOpen created : bool) (st : Dashboard)
  : Dashboard :=
  if readyOpen then st
  else
    let st := setConnectionStatus connecting st in
    if created then st else setConnectionStatus error st.

(** [ws.onopen] *)
Definition onopen (st : Dashboard) : Dashboard :=
  setReconnectAttempts 0 (setWsConnection true (setConnectionStatus connected st)).

(** [ws.onmessage]: [parsed] is the result of [JSON.parse], [None] when it
    threw.  An exception raised by the call of the dispatcher is caught and
    logged; one raised later by a queued updater is not (see [render]). *)
Definition onmessage (now : Z) (parsed : option WebSocketMessage)
    (st : Dashboard) : Dashboard :=
  match parsed with
  | Some message =>
      stateOf (handleWebSocketMessage now message (setLastMessageTime now st))
  | None => st
  end.

(** [ws.onclose] *)
Definition onclose (code : Z) (st : Dashboard) : Dashboard :=
  let st := setWsConnection false (setConnectionStatus disconnected st) in
  if negb (Z.eqb code 1000)
     && (reconnectAttempts st <? maxReconnectAttempts)%nat
  then
    let delay := reconnectDelay (reconnectAttempts st) in
    setReconnectTimers (reconnectTimers st ++ [delay])
      (setReconnectAttempts (S (reconnectAttempts st)) st)
  else st.

(** [ws.onerror] *)
Definition onerror (st : Dashboard) : Dashboard :=
  setConnectionStatus error st.

(** The callback of the [i]-th pending retry timer. *)
Definition retryTimer (i : nat) (readyOpen created : bool) (st : Dashboard)
  : Dashboard :=
  match reconnectTimers st !! i with
  | Some _ =>
      connectWebSocket readyOpen created
        (setReconnectTimers (delete i (reconnectTimers st)) st)
  | None => st
  end.

(** ** Drift simulator *)

(** [(slot.duration || 0) + 1] *)
Definition newDuration (slot : ParkingSlot) : Z :=
  js_or_default (duration slot) 0 + 1.

(** The value of [changeProbability] when the random draw is compared with
    it. *)
Definition changeProbability (slot : ParkingSlot) : Q :=
  let p :=
    if decide (floor slot = Some 1) then 0.04%Q
    else if decide (floor slot = Some 3) then 0.01%Q
    else 0.02%Q in
  let p :=
    if bool_decide (state slot = Some occupied) && (60 <? newDuration slot)
    then (p * 2)%Q else p in
  if bool_decide (state slot = Some free) && (10 <? newDuration slot)
  then (p * 1.5)%Q else p.

(** [x < y] on rationals, as a boolean. *)
Definition Qltb (x y : Q) : bool := negb (Qle_bool y x).

(** The callback of [prevSlots.map] in [simulateRealisticParking]; [random] is
    the value returned by [Math.random()] for this slot. *)
Definition driftSlot (now : Z) (random : Q) (slot : ParkingSlot)
  : ParkingSlot :=
  if Qltb random (changeProbability slot) then
    with_flip slot
      (if decide (state slot = Some free) then occupied else free) now 0
  else with_duration slot (newDuration slot).

(** The state updater of [simulateRealisticParking]; [random i] is the draw
    made for the slot at index [i]. *)
Definition driftSlots (now : Z) (random : nat -> Q)
    (prevSlots : list ParkingSlot) : list ParkingSlot :=
  imap (fun i slot => driftSlot now (random i) slot) prevSlots.

(** [simulateRealisticParking] of the component with the feed.  The callback
    is re-created by [useCallback] whenever [connectionStatus] changes;
    [captured] is the status it closed over. *)
Definition simulateRealisticParking (captured : ConnectionStatus) (now : Z)
    (random : nat -> Q) (st : Dashboard) : Dashboard :=
  if decide (captured = connected) then st
  else setParkingSlots (driftSlots now random (parkingSlots st)) st.

(** [simulateRealisticParking] of the older variant, which has no feed and
    no guard: its whole state is the slot list. *)
Definition simulateRealisticParking_standalone (now : Z) (random : nat -> Q)
    (prevSlots : list ParkingSlot) : list ParkingSlot :=
  driftSlots now random prevSlots.

(** The drift effect,
    [if (connectionStatus !== 'connected') { setInterval(...) }], run by React
    after a render whose [connectionStatus] differs from the previous one:
    the previous interval is cleared by the effect's cleanup and a new one is
    installed only while not connected.  (Re-installing an interval for an
    unchanged status changes nothing in this model.) *)
Definition commit (st : Dashboard) : Dashboard :=
  setDriftInterval
    (if decide (connectionStatus st = connected) then None
     else Some (connectionStatus st))
    st.

(** A tick of the installed interval, if there is one. *)
Definition driftTick (now : Z) (random : nat -> Q) (st : Dashboard)
  : Dashboard :=
  match driftInterval st with
  | Some captured => simulateRealisticParking captured now random st
  | None => st
  end.

(** ** Statistics *)

(** [getSlotsForFloor] *)
Definition getSlotsForFloor (fl : Z) (l : list ParkingSlot)
  : list ParkingSlot :=
  filter (fun slot => floor slot = Some fl) l.

(** [selectedFloor ? getSlotsForFloor(selectedFloor) : parkingSlots] *)
Definition slotsToAnalyze (selectedFloor : option Z) (l : list ParkingSlot)
  : list ParkingSlot :=
  match selectedFloor with
  | Some fl => if falsy fl then l else getSlotsForFloor fl l
  | None => l
  end.

(** The integer fields of [stats]. *)
Definition freeSlots (selectedFloor : option Z) (l : list ParkingSlot) : nat :=
  length (filter (fun slot => state slot = Some free
                              \/ state slot = Some available)
                 (slotsToAnalyze selectedFloor l)).

Definition occupiedSlots (selectedFloor : option Z) (l : list ParkingSlot)
  : nat :=
  length (filter (fun slot => state slot = Some occupied)
                 (slotsToAnalyze selectedFloor l)).

Definition totalSlots (selectedFloor : option Z) (l : list ParkingSlot)
  : nat :=
  length (slotsToAnalyze selectedFloor l).

(** ** The component as a transition system *)

(** React's render of the queued updates, followed by the effects.  When a
    queued updater raises, the error is outside every [try] of the component:
    React unmounts it. *)
Definition render (st : Dashboard) : Outcome :=
  if renderThrows st then Unmounted st else Returned (commit st).

(** Everything that can run on the component's event loop: the callbacks of
    the component, each of which only queues state updates, and React's
    render. *)
Inductive Event : Type :=
  | Connect (readyOpen created : bool)
  | Open
  | Message (now : Z) (parsed : option WebSocketMessage)
  | Close (code : Z)
  | Error
  | RetryTimer (i : nat) (readyOpen created : bool)
  | DriftTick (now : Z) (random : nat -> Q)
  | Render.

(** What runs for an event. *)
Definition handle (ev : Event) (st : Dashboard) : Dashboard :=
  match ev with
  | Connect readyOpen created => connectWebSocket readyOpen created st
  | Open => onopen st
  | Message now parsed => onmessage now parsed st
  | Close code => onclose code st
  | Error => onerror st
  | RetryTimer i readyOpen created => retryTimer i readyOpen created st
  | DriftTick now random => driftTick now random st
  | Render => stateOf (render st)
  end.

(** One turn of the event loop. *)
Definition step (st : Dashboard) (ev : Event) : Dashboard :=
  handle ev st.

(** Whether the turn ends with the component unmounted. *)
Definition unmounts (ev : Event) (st : Dashboard) : bool :=
  match ev with
  | Render => renderThrows st
  | _ => false
  end.

(** The component along a sequence of events.  The run ends when React
    unmounts the component, and gives the state it had then; what the sockets
    and timers it leaves behind do afterwards is outside the model. *)
Fixpoint run (evs : list Event) (st : Dashboard) : Dashboard :=
  match evs with
  | [] => st
  | ev :: evs' => if unmounts ev st then st else run evs' (step st ev)
  end.

(** The state after the first render and its effects; [t0] is the
    [Date.now()] that initialises [lastMessageTime]. *)
Definition initialState (t0 : Z) : Dashboard :=
  {| connectionStatus := disconnected;
     wsConnection := false;
     reconnectAttempts := 0;
     reconnectTimers := [];
     parkingSlots := [];
     lastMessageTime := t0;
     backendStatus := None;
     statusHistory := [];
     console := [];
     driftInterval := Some disconnected;
     renderThrows := false |}.

(** ** Formatting and derived statistics *)

(** The text of an integer inside a template literal. *)
Definition showNumber (n : Z) : string :=
  NilZero.string_of_int (Z.to_int n).

(** [formatDuration]: [Math.floor(minutes / 60)] is the floor quotient and
    [minutes % 60] is JavaScript's remainder, which takes the sign of the
    dividend. *)
Definition formatDuration (minutes : Z) : string :=
  if minutes <? 60 then String.append (showNumber minutes) "m"
  else
    let hours := minutes / 60 in
    let remainingMinutes := Z.rem minutes 60 in
    String.append (showNumber hours)
      (String.append "h "
         (String.append (showNumber remainingMinutes) "m")).

(** [totalSlots > 0 ? (occupiedSlots / totalSlots) * 100 : 0], the quotient
    kept exact. *)
Definition occupancyRate (selectedFloor : option Z) (l : list ParkingSlot)
  : Q :=
  if (0 <? totalSlots selectedFloor l)%nat
  then (inject_Z (Z.of_nat (occupiedSlots selectedFloor l))
        / inject_Z (Z.of_nat (totalSlots selectedFloor l)) * 100)%Q
  else 0%Q.

(** [slotsToAnalyze.filter(slot => slot.state === 'occupied' && slot.duration)] *)
Definition occupiedSlotsWithDuration (selectedFloor : option Z)
    (l : list ParkingSlot) : list ParkingSlot :=
  filter (fun slot => state slot = Some occupied
                      /\ truthy (duration slot) = true)
         (slotsToAnalyze selectedFloor l).

(** [reduce((sum, slot) => sum + (slot.duration || 0), 0)] *)
Definition sumDurations (l : list ParkingSlot) : Z :=
  foldl (fun sum slot => sum + js_or_default (duration slot) 0) 0 l.

(** [averageOccupancyTime], the quotient kept exact. *)
Definition averageOccupancyTime (selectedFloor : option Z)
    (l : list ParkingSlot) : Q :=
  let withDuration := occupiedSlotsWithDuration selectedFloor l in
  if (0 <? length withDuration)%nat
  then (inject_Z (sumDurations withDuration)
        / inject_Z (Z.of_nat (length withDuration)))%Q
  else 0%Q.

(** One element of [floorStats].  [fs_occupancyRate] is
    [(occupiedSlots / floorSlots.length) * 100], computed without a guard:
    [None] stands for the [NaN] that [0 / 0] gives. *)
Record FloorStat : Set := mkFloorStat {
  fs_floor : Z;
  fs_totalSlots : nat;
  fs_freeSlots : nat;
  fs_occupiedSlots : nat;
  fs_occupancyRate : option Q
}.

(** The callback of [floors.map] in [floorStats]. *)
Definition floorStat (l : list ParkingSlot) (fl : Z) : FloorStat :=
  let floorSlots := filter (fun slot => floor slot = Some fl) l in
  let free_ := length (filter (fun slot => state slot = Some free
                                          \/ state slot = Some available)
                              floorSlots) in
  let occupied_ := length (filter (fun slot => state slot = Some occupied)
                                  floorSlots) in
  {| fs_floor := fl;
     fs_totalSlots := length floorSlots;
     fs_freeSlots := free_;
     fs_occupiedSlots := occupied_;
     fs_occupancyRate :=
       if (0 <? length floorSlots)%nat
       then Some (inject_Z (Z.of_nat occupied_)
                  / inject_Z (Z.of_nat (length floorSlots)) * 100)%Q
       else None |}.

(** [floorStats] *)
Definition floorStats (l : list ParkingSlot) : list FloorStat :=
  floorStat l <$> [1; 2; 3].

(** * Vocabulary of the properties *)

(** The set of ids held by a slot list. *)
Definition storeIds (l : list ParkingSlot) : gset (option string) :=
  list_to_set (id <$> l).

(** The record [{id:"A1", state:"occupied", floor:1, zone:"A"}] of the
    scenarios. *)
Definition slotA1 : ParkingSlot :=
  {| id := Some "A1"; state := Some occupied; lastUpdated := None;
     zone := Some "A"; floor := Some 1; duration := None;
     slot_id := None; status := None; timestamp := None |}.

(** A payload object that only has a [slots] key. *)
Definition slotsPayload (l : list ParkingSlot) : Payload :=
  PObject {| slots := SlotsList l; displays := DisplaysAbsent;
             updates := None; updateCount := None; body := emptyObject |}.

(** A payload object that only has an [updates] key. *)
Definition updatesPayload (l : list ParkingSlot) : Payload :=
  PObject {| slots := SlotsAbsent; displays := DisplaysAbsent;
             updates := Some l; updateCount := None; body := emptyObject |}.

(** A payload object that is a partial slot. *)
Definition slotPayload (s : ParkingSlot) : Payload :=
  PObject {| slots := SlotsAbsent; displays := DisplaysAbsent;
             updates := None; updateCount := None; body := s |}.

(** A store that holds the given slots, everything else as after the first
    render. *)
Definition storeOf (l : list ParkingSlot) : Dashboard :=
  setParkingSlots l (initialState 0).

(** The slots that the [status] case extracts. *)
Definition statusSlots (now : Z) (d : Payload) : list ParkingSlot :=
  match d with
  | PObject o => slotsFromDisplays now (displays o)
  | _ => []
  end.

(** What a spread leaves under one key: the delta's value when the delta has
    the key, the record's prior value otherwise. *)
Definition mergedKey {A} (over base result : option A) : Prop :=
  (forall v, over = Some v -> result = Some v)
  /\ (over = None -> result = base).

(** The installed interval agrees with the status: there is none while
    connected, and otherwise its callback closed over the current status.
    This holds after a render; a callback that sets the status breaks it
    until the next one. *)
Definition intervalInSync (st : Dashboard) : Prop :=
  driftInterval st =
    if decide (connectionStatus st = connected) then None
    else Some (connectionStatus st).

(** "Not occupied", as the statistics read it. *)
Definition vacant (s : option SlotState) : bool :=
  bool_decide (s = Some free \/ s = Some available).

(** A slot stored as [available], on floor 2, vacant for 15 minutes. *)
Definition availableSlot : ParkingSlot :=
  {| id := Some "A1"; state := Some available; lastUpdated := Some 5;
     zone := Some "A"; floor := Some 2; duration := Some 15;
     slot_id := None; status := None; timestamp := None |}.

(** The same slot stored as [free]. *)
Definition freeSlot : ParkingSlot :=
  {| id := Some "A1"; state := Some free; lastUpdated := Some 5;
     zone := Some "A"; floor := Some 2; duration := Some 15;
     slot_id := None; status := None; timestamp := None |}.

(** [{...slot, state: 'free'}] for a slot stored as [available]: the same
    slot with the other spelling of "not occupied". *)
Definition spelledFree (slot : ParkingSlot) : ParkingSlot :=
  if decide (state slot = Some available)
  then {| id := id slot; state := Some free; lastUpdated := lastUpdated slot;
          zone := zone slot; floor := floor slot; duration := duration slot;
          slot_id := slot_id slot; status := status slot;
          timestamp := timestamp slot |}
  else slot.

(** The seven envelope types that have a case of their own. *)
Definition knownTypes : list string :=
  ["initial_data"; "bulk_update"; "single_update"; "system_status";
   "status"; "ping"; "error"].

(** The keys of a [displays] mapping whose value is an object. *)
Fixpoint objectKeys (entries : list (string * DisplayEntry)) : list string :=
  match entries with
  | [] => []
  | (key, EntryObject _) :: rest => key :: objectKeys rest
  | (_, EntryOther) :: rest => objectKeys rest
  end.

(** A record with the six slot keys present, none of them falsy except
    possibly [duration] and [lastUpdated], and none of the alternative
    keys. *)
Definition fullRecord (slot : ParkingSlot) : Prop :=
  truthy (id slot) = true /\ is_Some (state slot)
  /\ is_Some (lastUpdated slot) /\ truthy (zone slot) = true
  /\ truthy (floor slot) = true /\ is_Some (duration slot)
  /\ slot_id slot = None /\ status slot = None /\ timestamp slot = None.

(** The store after a series of drift ticks, each with its own clock value
    and draws. *)
Definition driftTicks (ticks : list (Z * (nat -> Q)))
    (l : list ParkingSlot) : list ParkingSlot :=
  foldl (fun slots tick => driftSlots tick.1 tick.2 slots) l ticks.

(** The store after a series of [single_update] deltas. *)
Definition singleUpdates (now : Z) (upds l : list ParkingSlot)
  : list ParkingSlot :=
  foldl (fun slots update => singleUpdate now update slots) l upds.

(** The slots that no element of [floorStats] counts: those whose floor is
    absent or is not 1, 2 or 3. *)
Definition offFloors (l : list ParkingSlot) : list ParkingSlot :=
  filter (fun slot => floor slot <> Some 1 /\ floor slot <> Some 2
                      /\ floor slot <> Some 3) l.

(** A slot whose [duration] has been advanced by [n] minutes and which is
    otherwise untouched. *)
Definition aged (n : Z) (slot : ParkingSlot) : ParkingSlot :=
  with_duration slot (js_or_default (duration slot) 0 + n).

(** The events that are not the opening of a socket. *)
Definition notOpen (ev : Event) : Prop :=
  match ev with
  | Open => False
  | _ => True
  end.

(** The events that can write the slot store. *)
Definition writesStore (ev : Event) : Prop :=
  match ev with
  | Message _ _ | DriftTick _ _ => True
  | _ => False
  end.




(** The two states of the older variant, [state: 'free' | 'occupied']. *)
Definition freeOrOccupied (slot : ParkingSlot) : Prop :=
  state slot = Some free \/ state slot = Some occupied.

(** * Properties *)

(** ** Full snapshots *)

Lemma initialDataSlots_not_object now d :
  isObject d = false -> initialDataSlots now d = [].
Proof. destruct d; simpl; congruence. Qed.

Lemma handleInitialData_slots now d st :
  parkingSlots (handleInitialData now d st) =
    match initialDataSlots now d with
    | [] => parkingSlots st
    | l => l
    end.
Proof.
  unfold handleInitialData.
  destruct (isObject d) eqn:Hobj.
  - destruct (initialDataSlots now d); reflexivity.
  - rewrite (initialDataSlots_not_object now d Hobj). reflexivity.
Qed.

Lemma initial_data_dispatch now d st :
  handleWebSocketMessage now (mkMessage "initial_data" d) st =
    Returned (handleInitialData now d
                (consoleLog (mkMessage "initial_data" d) st)).
Proof. reflexivity. Qed.

Lemma initial_data_store now d st :
  parkingSlots
    (stateOf (handleWebSocketMessage now (mkMessage "initial_data" d) st)) =
    match initialDataSlots now d with
    | [] => parkingSlots st
    | _ :: _ => initialDataSlots now d
    end.
Proof.
  rewrite initial_data_dispatch. simpl. rewrite handleInitialData_slots.
  destruct (initialDataSlots now d); reflexivity.
Qed.

(** C1, as the code has it: an [initial_data] envelope whose payload yields a
    non-empty list of slot records replaces the store by that list, so the
    store's id set is the snapshot's (every snapshot id present, every other
    id gone); when the list is empty the store is left as it was. *)
Theorem initial_data_replaces_store (now : Z) (d : Payload) (st : Dashboard) :
  let snapshot := initialDataSlots now d in
  let st' := stateOf (handleWebSocketMessage now (mkMessage "initial_data" d) st) in
  (snapshot <> [] ->
     parkingSlots st' = snapshot
     /\ (forall i, i ∈ storeIds (parkingSlots st') <-> i ∈ storeIds snapshot)
     /\ (forall i, i ∈ storeIds (parkingSlots st) ->
                   i ∉ storeIds snapshot -> i ∉ storeIds (parkingSlots st')))
  /\ (snapshot = [] -> parkingSlots st' = parkingSlots st).
Proof.
  intros snapshot st'.
  assert (Hst' : parkingSlots st' =
                 match snapshot with [] => parkingSlots st | l => l end).
  { subst st' snapshot. apply initial_data_store. }
  split.
  - intros Hne.
    assert (Heq : parkingSlots st' = snapshot).
    { rewrite Hst'. destruct snapshot; [contradiction | reflexivity]. }
    rewrite Heq. repeat split; auto.
  - intros Hnil. rewrite Hst', Hnil. reflexivity.
Qed.

Lemma initial_data_replaces_store_witness :
  parkingSlots
    (stateOf (handleWebSocketMessage 7
                (mkMessage "initial_data" (slotsPayload [slotA1]))
                (storeOf [emptyObject]))) = [slotA1].
Proof.
  apply (initial_data_replaces_store 7 (slotsPayload [slotA1])
           (storeOf [emptyObject])).
  simpl. discriminate.
Defined.

(** C1 as the spec words it fails when the snapshot's list is empty: the
    store keeps its record, so its id set is not the (empty) id set of the
    snapshot. *)
Lemma initial_data_empty_snapshot_keeps_store :
  initialDataSlots 7 (slotsPayload []) = []
  /\ storeIds
       (parkingSlots
          (stateOf (handleWebSocketMessage 7
                      (mkMessage "initial_data" (slotsPayload []))
                      (storeOf [slotA1]))))
     <> storeIds (initialDataSlots 7 (slotsPayload [])).
Proof.
  split; [reflexivity |].
  simpl. unfold storeIds. simpl. intros Heq.
  assert (Hin : Some "A1" ∈ ({[ Some "A1" ]} ∪ ∅ : gset (option string)))
    by set_solver.
  rewrite Heq in Hin. set_solver.
Qed.

(** ** Normalisation *)

Lemma normalizeElement_defaults now slot :
  (state slot = None -> status slot = None ->
     state (normalizeElement now slot) = Some free)
  /\ (zone slot = None -> zone (normalizeElement now slot) = Some "A")
  /\ (floor slot = None -> floor (normalizeElement now slot) = Some 1)
  /\ (duration slot = None -> duration (normalizeElement now slot) = Some 0)
  /\ (lastUpdated slot = None -> timestamp slot = None ->
        lastUpdated (normalizeElement now slot) = Some now).
Proof.
  unfold normalizeElement; simpl.
  repeat split; intros; repeat match goal with H : _ = None |- _ => rewrite H end;
    reflexivity.
Qed.

(** C7, as the code has it: the elements of a non-empty [slots] list of an
    [initial_data] envelope are stored as received, with no defaulting, so the
    scenario snapshot gives exactly one record A1, occupied, whose [duration]
    (and [lastUpdated]) stay absent; the defaults ([free], ["A"], 1, 0, current
    time) are filled in for elements taken from a [displays] list or from a
    payload that is itself a list. *)
Theorem initial_data_slots_stored_as_received (now : Z) (st : Dashboard) :
  (forall o l, slots o = SlotsList l -> l <> [] ->
     parkingSlots
       (stateOf (handleWebSocketMessage now
                   (mkMessage "initial_data" (PObject o)) st)) = l)
  /\ (parkingSlots
        (stateOf (handleWebSocketMessage now
                    (mkMessage "initial_data" (slotsPayload [slotA1])) st))
      = [slotA1]
      /\ id slotA1 = Some "A1" /\ state slotA1 = Some occupied
      /\ duration slotA1 = None /\ lastUpdated slotA1 = None)
  /\ (forall o l, slots o = SlotsAbsent -> displays o = DisplaysList l ->
        l <> [] ->
        parkingSlots
          (stateOf (handleWebSocketMessage now
                      (mkMessage "initial_data" (PObject o)) st))
        = normalizeElement now <$> l)
  /\ (forall l, l <> [] ->
        parkingSlots
          (stateOf (handleWebSocketMessage now
                      (mkMessage "initial_data" (PArray l)) st))
        = normalizeElement now <$> l)
  /\ (forall slot,
        (state slot = None -> status slot = None ->
           state (normalizeElement now slot) = Some free)
        /\ (zone slot = None -> zone (normalizeElement now slot) = Some "A")
        /\ (floor slot = None -> floor (normalizeElement now slot) = Some 1)
        /\ (duration slot = None ->
              duration (normalizeElement now slot) = Some 0)
        /\ (lastUpdated slot = None -> timestamp slot = None ->
              lastUpdated (normalizeElement now slot) = Some now)).
Proof.
  split; [| split; [| split; [| split]]].
  - intros o l Hs Hne.
    rewrite initial_data_store. simpl. rewrite Hs.
    destruct l; [contradiction | reflexivity].
  - repeat split; reflexivity.
  - intros o l Hs Hd Hne.
    rewrite initial_data_store. simpl. rewrite Hs, Hd. simpl.
    destruct l; [contradiction | reflexivity].
  - intros l Hne.
    rewrite initial_data_store. simpl.
    destruct l; [contradiction | reflexivity].
  - intros slot. apply normalizeElement_defaults.
Qed.

Lemma initial_data_slots_stored_as_received_witness :
  parkingSlots
    (stateOf (handleWebSocketMessage 7
                (mkMessage "initial_data" (PArray [slotA1])) (storeOf [])))
  = [ {| id := Some "A1"; state := Some occupied; lastUpdated := Some 7;
         zone := Some "A"; floor := Some 1; duration := Some 0;
         slot_id := None; status := None; timestamp := None |} ].
Proof.
  apply (initial_data_slots_stored_as_received 7 (storeOf [])).
  discriminate.
Defined.

(** C7 as the spec words it fails on its own scenario: the stored record is
    the element as received, not its normalisation, and its [duration] is
    absent rather than 0. *)
Lemma initial_data_scenario_not_normalized :
  let st' := stateOf (handleWebSocketMessage 7
                        (mkMessage "initial_data" (slotsPayload [slotA1]))
                        (storeOf [])) in
  parkingSlots st' <> normalizeElement 7 <$> [slotA1]
  /\ duration <$> parkingSlots st' <> [Some 0].
Proof. split; discriminate. Qed.

(** ** Status frames *)

Lemma status_dispatch now d st :
  handleWebSocketMessage now (mkMessage "status" d) st =
    Returned (handleStatus now d (consoleLog (mkMessage "status" d) st)).
Proof. reflexivity. Qed.

Lemma handleStatus_slots now d st :
  parkingSlots (handleStatus now d st) =
    match statusSlots now d with
    | [] => parkingSlots st
    | _ :: _ => statusSlots now d
    end.
Proof.
  unfold handleStatus, statusSlots.
  destruct d as [| | l | o]; simpl; try reflexivity.
  destruct (slotsFromDisplays now (displays o)); reflexivity.
Qed.

(** C9, as the code has it: a [status] envelope extracts slot data only from
    a [displays] field (a list or a keyed map) and applies it as a full
    snapshot when any slot is found; a [slots] list and a payload that is
    itself a list are not looked at.  The raw envelope is written to the
    console in every case, and a payload that is an object becomes the
    backend status and the newest history entry whether or not slots were
    found. *)
Theorem status_extracts_displays_only (now : Z) (d : Payload) (st : Dashboard) :
  let msg := mkMessage "status" d in
  let st' := stateOf (handleWebSocketMessage now msg st) in
  (statusSlots now d <> [] -> parkingSlots st' = statusSlots now d)
  /\ (statusSlots now d = [] -> parkingSlots st' = parkingSlots st)
  /\ (forall l, d = PArray l -> parkingSlots st' = parkingSlots st)
  /\ (forall o, d = PObject o -> displays o = DisplaysAbsent ->
        parkingSlots st' = parkingSlots st)
  /\ msg ∈ console st'
  /\ (isObject d = true ->
        backendStatus st' = Some d /\ last (statusHistory st') = Some (now, d)).
Proof.
  intros msg st'. subst msg st'. rewrite status_dispatch. simpl.
  rewrite handleStatus_slots.
  split; [| split; [| split; [| split; [| split]]]].
  - destruct (statusSlots now d); [contradiction | reflexivity].
  - intros ->. reflexivity.
  - intros l ->. reflexivity.
  - intros o -> Hd. simpl. rewrite Hd. reflexivity.
  - unfold handleStatus.
    assert (Hin : mkMessage "status" d
                    ∈ console (consoleLog (mkMessage "status" d) st))
      by (simpl; set_solver).
    destruct d as [| | l | o]; simpl in *; try exact Hin.
    destruct (0 <? length (slotsFromDisplays now (displays o)))%nat; exact Hin.
  - intros Hobj. unfold handleStatus. rewrite Hobj.
    destruct d as [| | l | o]; simpl in *; try discriminate.
    + split; [reflexivity | apply last_snoc].
    + destruct (0 <? length (slotsFromDisplays now (displays o)))%nat; simpl;
        (split; [reflexivity | apply last_snoc]).
Qed.

Lemma status_extracts_displays_only_witness :
  parkingSlots
    (stateOf (handleWebSocketMessage 7
                (mkMessage "status"
                   (PObject {| slots := SlotsAbsent;
                               displays := DisplaysMap
                                             [("A1", EntryObject slotA1);
                                              ("n", EntryOther)];
                               updates := None; updateCount := None;
                               body := emptyObject |}))
                (storeOf [emptyObject])))
  = [ {| id := Some "A1"; state := Some occupied; lastUpdated := Some 7;
         zone := Some "A"; floor := Some 1; duration := Some 0;
         slot_id := None; status := None; timestamp := None |} ].
Proof.
  apply (status_extracts_displays_only 7
           (PObject {| slots := SlotsAbsent;
                       displays := DisplaysMap
                                     [("A1", EntryObject slotA1);
                                      ("n", EntryOther)];
                       updates := None; updateCount := None;
                       body := emptyObject |})
           (storeOf [emptyObject])).
  discriminate.
Defined.

(** C9 as the spec words it fails for a [slots] list: the generic rules find
    the snapshot's record, yet the [status] case leaves the store empty. *)
Lemma status_ignores_slots_field :
  initialDataSlots 7 (slotsPayload [slotA1]) = [slotA1]
  /\ parkingSlots
       (stateOf (handleWebSocketMessage 7
                   (mkMessage "status" (slotsPayload [slotA1])) (storeOf [])))
     <> initialDataSlots 7 (slotsPayload [slotA1]).
Proof. split; [reflexivity | discriminate]. Qed.

(** ** Delta batches *)

Section Deltas.
Variable now : Z.

Lemma mergeUpdate_id (slot update : ParkingSlot) :
  id slot = id update -> id (mergeUpdate now slot update) = id slot.
Proof. simpl. intros <-. destruct (id slot); reflexivity. Qed.

Lemma applyUpdate_found (l : list ParkingSlot) update i slot :
  list_find (fun s => id s = id update) l = Some (i, slot) ->
  applyUpdate now l update = <[i := mergeUpdate now slot update]> l.
Proof. unfold applyUpdate. intros ->. reflexivity. Qed.

Lemma applyUpdate_no_match (l : list ParkingSlot) update :
  (forall slot, slot ∈ l -> id slot <> id update) ->
  applyUpdate now l update = l.
Proof.
  intros Hno. unfold applyUpdate.
  destruct (list_find _ l) as [[i slot]|] eqn:Hfind; [| reflexivity].
  apply list_find_Some in Hfind as (Hi & Hid & _).
  exfalso. apply (Hno slot); [| exact Hid].
  apply list_elem_of_lookup. eauto.
Qed.

Lemma applyUpdate_ids (l : list ParkingSlot) update :
  id <$> applyUpdate now l update = id <$> l.
Proof.
  unfold applyUpdate.
  destruct (list_find _ l) as [[i slot]|] eqn:Hfind; [| reflexivity].
  apply list_find_Some in Hfind as (Hi & Hid & _).
  rewrite list_fmap_insert, mergeUpdate_id by exact Hid.
  apply list_insert_id. rewrite list_lookup_fmap, Hi. reflexivity.
Qed.

Lemma bulkUpdate_ids upds (l : list ParkingSlot) :
  id <$> bulkUpdate now upds l = id <$> l.
Proof.
  revert l. induction upds as [| u upds IH]; intros l; [reflexivity |].
  unfold bulkUpdate in *. simpl. rewrite IH. apply applyUpdate_ids.
Qed.

Lemma bulkUpdate_app before after (l : list ParkingSlot) :
  bulkUpdate now (before ++ after) l =
    bulkUpdate now after (bulkUpdate now before l).
Proof. unfold bulkUpdate. apply foldl_app. Qed.

Lemma no_match_ids (l l' : list ParkingSlot) (update : ParkingSlot) :
  id <$> l' = id <$> l ->
  (forall slot, slot ∈ l -> id slot <> id update) ->
  forall slot, slot ∈ l' -> id slot <> id update.
Proof.
  intros Hids Hno slot Hin Heq.
  assert (Hi : id slot ∈ id <$> l')
    by (apply list_elem_of_fmap; eauto).
  rewrite Hids in Hi. apply list_elem_of_fmap in Hi as (s & Hs & Hin').
  apply (Hno s Hin'). congruence.
Qed.

Lemma bulkUpdate_skip before update after (l : list ParkingSlot) :
  (forall slot, slot ∈ l -> id slot <> id update) ->
  bulkUpdate now (before ++ update :: after) l =
    bulkUpdate now (before ++ after) l.
Proof.
  intros Hno. rewrite !bulkUpdate_app.
  change (bulkUpdate now (update :: after) (bulkUpdate now before l))
    with (bulkUpdate now after
            (applyUpdate now (bulkUpdate now before l) update)).
  rewrite applyUpdate_no_match; [reflexivity |].
  apply (no_match_ids l); [apply bulkUpdate_ids | exact Hno].
Qed.

Lemma singleUpdate_ids update (l : list ParkingSlot) :
  id <$> singleUpdate now update l = id <$> l.
Proof.
  unfold singleUpdate. rewrite <- list_fmap_compose.
  apply list_fmap_ext. intros i slot _. simpl.
  destruct (decide (id slot = id update)) as [Heq|]; [| reflexivity].
  apply (mergeUpdate_id slot update Heq).
Qed.

Lemma singleUpdate_no_match update (l : list ParkingSlot) :
  (forall slot, slot ∈ l -> id slot <> id update) ->
  singleUpdate now update l = l.
Proof.
  intros Hno. unfold singleUpdate.
  rewrite <- (list_fmap_id l) at 2.
  apply list_fmap_ext. intros i slot Hi. simpl.
  destruct (decide (id slot = id update)) as [Heq|]; [| reflexivity].
  exfalso. apply (Hno slot); [| exact Heq].
  apply list_elem_of_lookup. eauto.
Qed.

Lemma singleUpdate_lookup update (l : list ParkingSlot) (j : nat) :
  singleUpdate now update l !! j =
    (fun slot => if decide (id slot = id update)
                 then mergeUpdate now slot update else slot) <$> l !! j.
Proof. unfold singleUpdate. apply list_lookup_fmap. Qed.
End Deltas.

Lemma bulk_update_store now o upds st :
  updates o = Some upds ->
  parkingSlots
    (stateOf (handleWebSocketMessage now
                (mkMessage "bulk_update" (PObject o)) st))
  = bulkUpdate now upds (parkingSlots st).
Proof.
  intros Hu. unfold handleWebSocketMessage. simpl. rewrite Hu. reflexivity.
Qed.

Lemma single_update_store now o st :
  parkingSlots
    (stateOf (handleWebSocketMessage now
                (mkMessage "single_update" (PObject o)) st))
  = singleUpdate now (body o) (parkingSlots st).
Proof. reflexivity. Qed.

Lemma delta_ids_kept now d st :
  (id <$> parkingSlots
            (stateOf (handleWebSocketMessage now
                        (mkMessage "bulk_update" d) st))
   = id <$> parkingSlots st)
  /\ (id <$> parkingSlots
               (stateOf (handleWebSocketMessage now
                           (mkMessage "single_update" d) st))
      = id <$> parkingSlots st).
Proof.
  unfold handleWebSocketMessage. simpl. split.
  - destruct d as [| | l | o]; simpl; try reflexivity.
    destruct (updates o); simpl; [apply bulkUpdate_ids | reflexivity].
  - destruct d as [| | l | o]; simpl; try apply singleUpdate_ids.
    unfold consoleLog, setRenderThrows. simpl.
    destruct (parkingSlots st); reflexivity.
Qed.

(** C2: a delta of a [bulk_update] batch or of a [single_update] envelope
    whose id matches no record of the store is discarded (the batch gives the
    same store as the batch without it, the single update leaves the store as
    it was), and no delta ever adds a record: the list of ids in the store is
    the same after every such envelope. *)
Theorem unmatched_delta_is_discarded (now : Z) (st : Dashboard)
    (update : ParkingSlot) :
  (forall slot, slot ∈ parkingSlots st -> id slot <> id update) ->
  (forall o before after,
     updates o = Some (before ++ update :: after) ->
     parkingSlots
       (stateOf (handleWebSocketMessage now
                   (mkMessage "bulk_update" (PObject o)) st))
     = bulkUpdate now (before ++ after) (parkingSlots st))
  /\ (forall o, updates o = Some [update] ->
        parkingSlots
          (stateOf (handleWebSocketMessage now
                      (mkMessage "bulk_update" (PObject o)) st))
        = parkingSlots st)
  /\ (forall o, body o = update ->
        parkingSlots
          (stateOf (handleWebSocketMessage now
                      (mkMessage "single_update" (PObject o)) st))
        = parkingSlots st)
  /\ (forall d,
        id <$> parkingSlots
                 (stateOf (handleWebSocketMessage now
                             (mkMessage "bulk_update" d) st))
        = id <$> parkingSlots st)
  /\ (forall d,
        id <$> parkingSlots
                 (stateOf (handleWebSocketMessage now
                             (mkMessage "single_update" d) st))
        = id <$> parkingSlots st).
Proof.
  intros Hno. split; [| split; [| split; [| split]]].
  - intros o before after Hu. rewrite (bulk_update_store now o _ st Hu).
    apply bulkUpdate_skip, Hno.
  - intros o Hu. rewrite (bulk_update_store now o _ st Hu).
    apply (bulkUpdate_skip now [] update [] _ Hno).
  - intros o <-. rewrite single_update_store.
    apply singleUpdate_no_match, Hno.
  - intros d. apply (delta_ids_kept now d st).
  - intros d. apply (delta_ids_kept now d st).
Qed.

Lemma unmatched_delta_is_discarded_witness :
  parkingSlots
    (stateOf (handleWebSocketMessage 7
                (mkMessage "bulk_update"
                   (updatesPayload
                      [ {| id := Some "B2"; state := Some free;
                           lastUpdated := None; zone := None; floor := None;
                           duration := None; slot_id := None; status := None;
                           timestamp := None |} ]))
                (storeOf [slotA1])))
  = [slotA1].
Proof.
  refine (proj1 (proj2 (unmatched_delta_is_discarded 7 (storeOf [slotA1])
            {| id := Some "B2"; state := Some free;
               lastUpdated := None; zone := None; floor := None;
               duration := None; slot_id := None; status := None;
               timestamp := None |} _)) _ _).
  - intros slot Hin. apply list_elem_of_singleton in Hin. subst slot.
    discriminate.
  - reflexivity.
Defined.

Lemma overlay_mergedKey {A} (over base : option A) :
  mergedKey over base (overlay over base).
Proof. split; intros; subst; reflexivity. Qed.

Lemma mergeUpdate_keys now slot update :
  let merged := mergeUpdate now slot update in
  mergedKey (id update) (id slot) (id merged)
  /\ mergedKey (state update) (state slot) (state merged)
  /\ mergedKey (zone update) (zone slot) (zone merged)
  /\ mergedKey (floor update) (floor slot) (floor merged)
  /\ mergedKey (duration update) (duration slot) (duration merged)
  /\ mergedKey (slot_id update) (slot_id slot) (slot_id merged)
  /\ mergedKey (status update) (status slot) (status merged)
  /\ mergedKey (timestamp update) (timestamp slot) (timestamp merged).
Proof. simpl. repeat split; intros; subst; try reflexivity;
         match goal with H : _ = _ |- _ => rewrite H end; reflexivity. Qed.

Lemma mergeUpdate_lastUpdated now slot update :
  (forall t, lastUpdated update = Some t -> t <> 0 ->
     lastUpdated (mergeUpdate now slot update) = Some t)
  /\ (lastUpdated update = None \/ lastUpdated update = Some 0 ->
        lastUpdated (mergeUpdate now slot update) = Some now).
Proof.
  simpl. split.
  - intros t -> Ht. simpl. unfold falsy, Falsy_Z.
    destruct (Z.eqb_spec t 0); [contradiction | reflexivity].
  - intros [-> | ->]; reflexivity.
Qed.

(** C3, as the code has it: a delta applied to the record it matches by id
    overwrites the keys it carries and keeps every other key of the record;
    [lastUpdated] becomes the delta's value when that is present and not 0,
    and the current time otherwise.  In a [bulk_update] the record is the
    first one with that id and every other position of the store is
    unchanged; in a [single_update] every record with that id is merged this
    way and every record with another id is unchanged. *)
Theorem delta_overwrites_present_keys (now : Z) (st : Dashboard)
    (update slot : ParkingSlot) (i : nat) :
  parkingSlots st !! i = Some slot ->
  id slot = id update ->
  (forall j s, parkingSlots st !! j = Some s -> (j < i)%nat ->
               id s <> id update) ->
  let merged := mergeUpdate now slot update in
  (mergedKey (id update) (id slot) (id merged)
   /\ mergedKey (state update) (state slot) (state merged)
   /\ mergedKey (zone update) (zone slot) (zone merged)
   /\ mergedKey (floor update) (floor slot) (floor merged)
   /\ mergedKey (duration update) (duration slot) (duration merged)
   /\ mergedKey (slot_id update) (slot_id slot) (slot_id merged)
   /\ mergedKey (status update) (status slot) (status merged)
   /\ mergedKey (timestamp update) (timestamp slot) (timestamp merged))
  /\ ((forall t, lastUpdated update = Some t -> t <> 0 ->
         lastUpdated merged = Some t)
      /\ (lastUpdated update = None \/ lastUpdated update = Some 0 ->
            lastUpdated merged = Some now))
  /\ (applyUpdate now (parkingSlots st) update
      = <[i := merged]> (parkingSlots st))
  /\ (forall o, updates o = Some [update] ->
        let st' := stateOf (handleWebSocketMessage now
                              (mkMessage "bulk_update" (PObject o)) st) in
        parkingSlots st' !! i = Some merged
        /\ forall j, j <> i -> parkingSlots st' !! j = parkingSlots st !! j)
  /\ (forall o, body o = update ->
        let st' := stateOf (handleWebSocketMessage now
                              (mkMessage "single_update" (PObject o)) st) in
        parkingSlots st' !! i = Some merged
        /\ forall j s, parkingSlots st !! j = Some s ->
             parkingSlots st' !! j =
               Some (if decide (id s = id update)
                     then mergeUpdate now s update else s)).
Proof.
  intros Hi Hid Hfirst merged.
  assert (Hfind : list_find (fun s => id s = id update) (parkingSlots st)
                  = Some (i, slot)).
  { apply list_find_Some. split; [exact Hi |]. split; [exact Hid |].
    intros j s Hj Hlt. apply (Hfirst j s Hj Hlt). }
  assert (Happly : applyUpdate now (parkingSlots st) update
                   = <[i := merged]> (parkingSlots st))
    by apply (applyUpdate_found now _ update i slot Hfind).
  split; [apply mergeUpdate_keys |].
  split; [apply mergeUpdate_lastUpdated |].
  split; [exact Happly |].
  split.
  - intros o Hu st'. subst st'.
    rewrite (bulk_update_store now o _ st Hu).
    change (bulkUpdate now [update] (parkingSlots st))
      with (applyUpdate now (parkingSlots st) update).
    rewrite Happly. split.
    + apply list_lookup_insert_eq. apply lookup_lt_Some in Hi. exact Hi.
    + intros j Hj. apply list_lookup_insert_ne. congruence.
  - intros o <- st'. subst st'. rewrite single_update_store. split.
    + rewrite singleUpdate_lookup, Hi. simpl.
      destruct (decide (id slot = id (body o))); [reflexivity | contradiction].
    + intros j s Hj. rewrite singleUpdate_lookup, Hj. reflexivity.
Qed.

Lemma delta_overwrites_present_keys_witness :
  parkingSlots
    (stateOf (handleWebSocketMessage 7
                (mkMessage "bulk_update"
                   (updatesPayload
                      [ {| id := Some "A1"; state := Some free;
                           lastUpdated := None; zone := None; floor := None;
                           duration := None; slot_id := None; status := None;
                           timestamp := None |} ]))
                (storeOf [emptyObject; slotA1]))) !! 1%nat
  = Some {| id := Some "A1"; state := Some free; lastUpdated := Some 7;
            zone := Some "A"; floor := Some 1; duration := None;
            slot_id := None; status := None; timestamp := None |}.
Proof.
  refine (proj1 (proj1 (proj2 (proj2 (proj2
            (delta_overwrites_present_keys 7 (storeOf [emptyObject; slotA1])
               {| id := Some "A1"; state := Some free;
                  lastUpdated := None; zone := None; floor := None;
                  duration := None; slot_id := None; status := None;
                  timestamp := None |} slotA1 1 _ _ _)))) _ _)).
  - reflexivity.
  - reflexivity.
  - intros [| j] s Hj Hlt; [| lia].
    simpl in Hj. injection Hj as <-. discriminate.
  - reflexivity.
Defined.

(** C3 as the spec words it fails for a delta that carries [lastUpdated: 0]:
    the value is present, yet the record gets the current time. *)
Lemma delta_lastUpdated_zero_replaced :
  let update := {| id := Some "A1"; state := None; lastUpdated := Some 0;
                   zone := None; floor := None; duration := None;
                   slot_id := None; status := None; timestamp := None |} in
  let st' := stateOf (handleWebSocketMessage 7
                        (mkMessage "single_update" (slotPayload update))
                        (storeOf [slotA1])) in
  id <$> parkingSlots st' = [id update]
  /\ lastUpdated <$> parkingSlots st' <> [lastUpdated update].
Proof. split; [reflexivity | discriminate]. Qed.

(** ** Reconnect policy *)

Lemma onclose_retry code st :
  code <> 1000 -> (reconnectAttempts st < 5)%nat ->
  onclose code st =
    setReconnectTimers
      (reconnectTimers st ++ [reconnectDelay (reconnectAttempts st)])
      (setReconnectAttempts (S (reconnectAttempts st))
         (setWsConnection false (setConnectionStatus disconnected st))).
Proof.
  intros Hcode Hlt. unfold onclose. simpl.
  destruct (Z.eqb_spec code 1000) as [|_]; [contradiction |].
  destruct (Nat.ltb_spec (reconnectAttempts st) maxReconnectAttempts) as [_|Hge];
    [reflexivity | unfold maxReconnectAttempts in Hge; lia].
Qed.

Lemma onclose_no_retry code st :
  code = 1000 \/ (5 <= reconnectAttempts st)%nat ->
  onclose code st =
    setWsConnection false (setConnectionStatus disconnected st).
Proof.
  intros Hor. unfold onclose. simpl.
  destruct (Z.eqb_spec code 1000) as [|Hne]; [reflexivity |].
  destruct (Nat.ltb_spec (reconnectAttempts st) maxReconnectAttempts) as [Hlt|_];
    [| reflexivity].
  unfold maxReconnectAttempts in Hlt. destruct Hor; [contradiction | lia].
Qed.

Lemma step_close_retry code st :
  code <> 1000 -> (reconnectAttempts st < 5)%nat ->
  reconnectAttempts (step st (Close code)) = S (reconnectAttempts st)
  /\ reconnectTimers (step st (Close code)) =
       reconnectTimers st ++ [reconnectDelay (reconnectAttempts st)].
Proof.
  intros Hcode Hlt. unfold step, handle.
  rewrite (onclose_retry code st Hcode Hlt). split; reflexivity.
Qed.

Lemma step_close_no_retry code st :
  code = 1000 \/ (5 <= reconnectAttempts st)%nat ->
  reconnectAttempts (step st (Close code)) = reconnectAttempts st
  /\ reconnectTimers (step st (Close code)) = reconnectTimers st.
Proof.
  intros Hor. unfold step, handle.
  rewrite (onclose_no_retry code st Hor). split; reflexivity.
Qed.

(** [n] abnormal closures in a row, while the counter stays within the
    ceiling: each one schedules the next delay of the sequence. *)
Lemma run_abnormal_closures code n st :
  code <> 1000 -> (reconnectAttempts st + n <= 5)%nat ->
  reconnectAttempts (run (replicate n (Close code)) st)
  = (reconnectAttempts st + n)%nat
  /\ reconnectTimers (run (replicate n (Close code)) st) =
       reconnectTimers st
         ++ (reconnectDelay <$> seq (reconnectAttempts st) n).
Proof.
  intros Hcode. revert st. induction n as [| n IH]; intros st Hle.
  - change (run (replicate 0 (Close code)) st) with st.
    rewrite Nat.add_0_r, app_nil_r. split; reflexivity.
  - change (run (replicate (S n) (Close code)) st)
      with (run (replicate n (Close code)) (step st (Close code))).
    destruct (step_close_retry code st Hcode) as [Ha Ht]; [lia |].
    destruct (IH (step st (Close code))) as [IHa IHt]; [rewrite Ha; lia |].
    rewrite IHa, IHt, Ha, Ht. split; [lia |].
    rewrite <- app_assoc. reflexivity.
Qed.

(** C4: a close event with a code other than 1000 while the retry counter is
    below 5 schedules one retry after [min(1000 * 2^attempt, 30000)] ms and
    increments the counter, which gives 1, 2, 4, 8 and 16 seconds for attempts
    0 to 4; a close with code 1000, or with the counter at 5, schedules
    nothing, so the sixth abnormal closure in a row adds no sixth retry. *)
Theorem close_schedules_backoff_retry (code : Z) (st : Dashboard) :
  let st' := onclose code st in
  (code <> 1000 -> (reconnectAttempts st < 5)%nat ->
     reconnectTimers st' =
       reconnectTimers st
         ++ [Z.min (1000 * 2 ^ Z.of_nat (reconnectAttempts st)) 30000]
     /\ reconnectAttempts st' = S (reconnectAttempts st))
  /\ (code = 1000 \/ (5 <= reconnectAttempts st)%nat ->
        reconnectTimers st' = reconnectTimers st
        /\ reconnectAttempts st' = reconnectAttempts st)
  /\ connectionStatus st' = disconnected
  /\ reconnectDelay <$> [0; 1; 2; 3; 4]%nat = [1000; 2000; 4000; 8000; 16000]
  /\ (code <> 1000 ->
        let closed n := run (replicate n (Close code)) (onopen st) in
        reconnectTimers (closed 5%nat) =
          reconnectTimers st ++ [1000; 2000; 4000; 8000; 16000]
        /\ reconnectTimers (closed 6%nat) = reconnectTimers (closed 5%nat)
        /\ reconnectAttempts (closed 6%nat) = 5%nat).
Proof.
  intros st'. subst st'. split; [| split; [| split; [| split]]].
  - intros Hcode Hlt. rewrite (onclose_retry code st Hcode Hlt).
    split; reflexivity.
  - intros Hor. rewrite (onclose_no_retry code st Hor). split; reflexivity.
  - unfold onclose. simpl.
    destruct (negb (code =? 1000) && _); reflexivity.
  - reflexivity.
  - intros Hcode closed.
    destruct (run_abnormal_closures code 5 (onopen st) Hcode) as [Ha Ht];
      [apply Nat.le_refl |].
    assert (Hsix : closed 6%nat = step (closed 5%nat) (Close code))
      by reflexivity.
    destruct (step_close_no_retry code (closed 5%nat)) as [Ha' Ht'].
    { right. subst closed. cbv beta. rewrite Ha. apply Nat.le_refl. }
    rewrite Hsix, Ha', Ht'. subst closed. cbv beta. rewrite Ha, Ht.
    repeat split; reflexivity.
Qed.

Lemma close_schedules_backoff_retry_witness :
  reconnectTimers (onclose 1006 (onclose 1006 (onopen (initialState 0))))
  = [1000; 2000].
Proof.
  refine (proj1 (proj1 (close_schedules_backoff_retry 1006
                          (onclose 1006 (onopen (initialState 0)))) _ _)).
  - discriminate.
  - simpl. lia.
Defined.

(** ** The retry counter *)

Lemma handleWebSocketMessage_attempts now message st :
  reconnectAttempts (stateOf (handleWebSocketMessage now message st))
  = reconnectAttempts st.
Proof.
  unfold handleWebSocketMessage.
  repeat match goal with
         | |- context [String.eqb ?a ?b] => destruct (String.eqb a b)
         end;
    unfold handleInitialData, handleBulkUpdate, handleSingleUpdate,
      handleStatus, handleUnknown;
    repeat case_match; reflexivity.
Qed.

Lemma connectWebSocket_attempts readyOpen created st :
  reconnectAttempts (connectWebSocket readyOpen created st)
  = reconnectAttempts st.
Proof. destruct readyOpen, created; reflexivity. Qed.

(** How one turn of the event loop can change the counter: not at all, back
    to 0 on an open, or up by one on a close that schedules a retry. *)
Lemma step_attempts st ev :
  reconnectAttempts (step st ev) = reconnectAttempts st
  \/ (ev = Open /\ reconnectAttempts (step st ev) = 0%nat)
  \/ (exists code, ev = Close code /\ code <> 1000
        /\ (reconnectAttempts st < 5)%nat
        /\ reconnectAttempts (step st ev) = S (reconnectAttempts st)
        /\ reconnectTimers (step st ev) =
             reconnectTimers st ++ [reconnectDelay (reconnectAttempts st)]).
Proof.
  destruct ev as [ro cr | | now parsed | code | | i ro cr | now random |];
    unfold step; simpl.
  - left. apply connectWebSocket_attempts.
  - right; left. split; reflexivity.
  - left. destruct parsed as [m|]; simpl; [| reflexivity].
    apply (handleWebSocketMessage_attempts now m (setLastMessageTime now st)).
  - destruct (Z.eq_dec code 1000) as [Heq|Hne].
    + left. rewrite (onclose_no_retry code st (or_introl Heq)). reflexivity.
    + destruct (le_lt_dec 5 (reconnectAttempts st)) as [Hge|Hlt].
      * left. rewrite (onclose_no_retry code st (or_intror Hge)). reflexivity.
      * right; right. exists code. rewrite (onclose_retry code st Hne Hlt).
        repeat split; auto.
  - left. reflexivity.
  - left. unfold retryTimer.
    destruct (reconnectTimers st !! i); [| reflexivity].
    rewrite connectWebSocket_attempts. reflexivity.
  - left. unfold driftTick, simulateRealisticParking.
    destruct (driftInterval st) as [c|]; [| reflexivity].
    destruct (decide (c = connected)); reflexivity.
  - left. unfold render. destruct (renderThrows st); reflexivity.
Qed.

Lemma run_attempts_le evs st :
  (reconnectAttempts st <= 5)%nat -> (reconnectAttempts (run evs st) <= 5)%nat.
Proof.
  revert st. induction evs as [| ev evs IH]; intros st Hle; [exact Hle |].
  simpl. destruct (unmounts ev st); [exact Hle |]. apply IH.
  destruct (step_attempts st ev) as [Heq | [[_ Heq] | (c & _ & _ & Hlt & Heq & _)]];
    rewrite Heq; lia.
Qed.

(** C10: the retry counter never exceeds 5.  It is 0 after the first render,
    every turn of the event loop leaves it alone, resets it to 0 (an open) or
    adds one while scheduling a retry (a close with a code other than 1000,
    taken only when the counter is strictly below 5), so it lies between 0 and
    5 after every sequence of events. *)
Theorem reconnect_attempts_bounded (t0 : Z) (evs : list Event) :
  reconnectAttempts (initialState t0) = 0%nat
  /\ (0 <= reconnectAttempts (run evs (initialState t0)) <= 5)%nat
  /\ (forall ev,
        let st := run evs (initialState t0) in
        reconnectAttempts (step st ev) = reconnectAttempts st
        \/ (ev = Open /\ reconnectAttempts (step st ev) = 0%nat)
        \/ (exists code, ev = Close code /\ code <> 1000
              /\ (reconnectAttempts st < 5)%nat
              /\ reconnectAttempts (step st ev) = S (reconnectAttempts st)
              /\ reconnectTimers (step st ev) =
                   reconnectTimers st
                     ++ [reconnectDelay (reconnectAttempts st)]))
  /\ (forall st, reconnectAttempts (step st Open) = 0%nat).
Proof.
  split; [reflexivity |]. split; [| split].
  - split; [lia |]. apply run_attempts_le. simpl. lia.
  - intros ev st. apply step_attempts.
  - reflexivity.
Qed.

(** ** Drift gating *)

Lemma commit_interval st :
  driftInterval (commit st) =
    if decide (connectionStatus st = connected) then None
    else Some (connectionStatus st).
Proof. reflexivity. Qed.

Lemma commit_status st : connectionStatus (commit st) = connectionStatus st.
Proof. reflexivity. Qed.

(** A render that does not raise leaves the interval in agreement with the
    status. *)
Lemma render_intervalInSync st :
  renderThrows st = false -> intervalInSync (step st Render).
Proof.
  intros Hok. unfold intervalInSync, step, handle, render. rewrite Hok.
  simpl stateOf. rewrite commit_status. apply commit_interval.
Qed.

Lemma simulate_connected now random st :
  simulateRealisticParking connected now random st = st.
Proof. reflexivity. Qed.

Lemma driftTick_slots now random st :
  intervalInSync st ->
  parkingSlots (step st (DriftTick now random)) =
    if decide (connectionStatus st = connected) then parkingSlots st
    else driftSlots now random (parkingSlots st).
Proof.
  unfold intervalInSync, step, handle, driftTick. intros ->.
  destruct (decide (connectionStatus st = connected)) as [|Hne];
    [reflexivity |].
  unfold simulateRealisticParking.
  destruct (decide (connectionStatus st = connected)); [contradiction |].
  reflexivity.
Qed.

(** What the guard and the effect do achieve: once React has rendered the
    status [connected], no interval is installed and a tick leaves the store
    as it is. *)
Lemma rendered_connection_stops_drift now random st :
  renderThrows st = false -> connectionStatus st = connected ->
  driftInterval (step st Render) = None
  /\ parkingSlots (step (step st Render) (DriftTick now random))
     = parkingSlots (step st Render).
Proof.
  intros Hok Hc.
  pose proof (render_intervalInSync st Hok) as Hsync.
  assert (Hc' : connectionStatus (step st Render) = connected).
  { unfold step, handle, render. rewrite Hok. exact Hc. }
  split.
  - rewrite Hsync, Hc'. reflexivity.
  - rewrite (driftTick_slots now random _ Hsync), Hc'. reflexivity.
Qed.

(** C6 on a tick that fires after the socket has opened and before React has
    rendered: the status has been set to [connected], but the interval
    installed while connecting is still there and its callback closed over
    [connecting], so the guard does not fire and the tick drifts the store
    (the free slot becomes occupied).  Only the next render clears the
    interval. *)
Theorem drift_tick_before_render_still_drifts :
  let st := run [Connect false true; Render; Open] (storeOf [freeSlot]) in
  let st' := step st (DriftTick 60005 (fun _ => 0%Q)) in
  connectionStatus st = connected
  /\ driftInterval st = Some connecting
  /\ parkingSlots st = [freeSlot]
  /\ parkingSlots st' =
       [ {| id := Some "A1"; state := Some occupied;
            lastUpdated := Some 60005; zone := Some "A"; floor := Some 2;
            duration := Some 0; slot_id := None; status := None;
            timestamp := None |} ]
  /\ connectionStatus st' = connected
  /\ driftInterval (step st' Render) = None
  /\ parkingSlots (step st' Render) = parkingSlots st'.
Proof. repeat split; reflexivity. Qed.

(** ** Drift of one slot *)

Lemma driftSlot_below now random slot :
  Qltb random (changeProbability slot) = true ->
  driftSlot now random slot =
    with_flip slot
      (if decide (state slot = Some free) then occupied else free) now 0.
Proof. unfold driftSlot. intros ->. reflexivity. Qed.

Lemma driftSlot_not_below now random slot :
  Qltb random (changeProbability slot) = false ->
  driftSlot now random slot = with_duration slot (newDuration slot).
Proof. unfold driftSlot. intros ->. reflexivity. Qed.

(** For a slot that is [free] or [occupied] the tick does what the spec says:
    below the probability the occupancy flips, [duration] is reset to 0 and
    [lastUpdated] is the current time, all in one record; otherwise only
    [duration] changes, by one. *)
Lemma driftSlot_free_or_occupied now random slot :
  state slot = Some free \/ state slot = Some occupied ->
  (Qltb random (changeProbability slot) = true ->
     let slot' := driftSlot now random slot in
     vacant (state slot') = negb (vacant (state slot))
     /\ duration slot' = Some 0 /\ lastUpdated slot' = Some now
     /\ slot' = with_flip slot
                  (if decide (state slot = Some free) then occupied else free)
                  now 0)
  /\ (Qltb random (changeProbability slot) = false ->
        driftSlot now random slot
        = with_duration slot (js_or_default (duration slot) 0 + 1)).
Proof.
  intros Hst. split.
  - intros Hlt. rewrite (driftSlot_below now random slot Hlt). simpl.
    destruct Hst as [-> | ->]; repeat split; reflexivity.
  - intros Hge. apply (driftSlot_not_below now random slot Hge).
Qed.

(** A flip never comes without the reset, whatever the slot: whenever the
    tick changes [state], the same record has [duration] 0. *)
Lemma driftSlot_state_change_resets now random slot :
  state (driftSlot now random slot) <> state slot ->
  duration (driftSlot now random slot) = Some 0
  /\ lastUpdated (driftSlot now random slot) = Some now.
Proof.
  unfold driftSlot.
  destruct (Qltb random (changeProbability slot)); simpl;
    [split; reflexivity | contradiction].
Qed.

(** C5 on a slot stored as [available]: the draw 0 is below the transition
    probability, [duration] is reset and [lastUpdated] set, but the new state
    is [free]: the slot was vacant and still is, nothing flipped. *)
Theorem drift_available_slot_does_not_flip :
  let st := storeOf [availableSlot] in
  let st' := step st (DriftTick 60005 (fun _ => 0%Q)) in
  connectionStatus st = disconnected
  /\ Qltb 0 (changeProbability availableSlot) = true
  /\ parkingSlots st' =
       [ {| id := Some "A1"; state := Some free; lastUpdated := Some 60005;
            zone := Some "A"; floor := Some 2; duration := Some 0;
            slot_id := None; status := None; timestamp := None |} ]
  /\ vacant <$> (state <$> parkingSlots st) = [true]
  /\ vacant <$> (state <$> parkingSlots st') = [true].
Proof. repeat split; reflexivity. Qed.

(** ** [free] and [available] *)

Lemma filter_fmap_stable {A} (f : A -> A) (P : A -> Prop)
    `{!forall x, Decision (P x)} (l : list A) :
  (forall x, P (f x) <-> P x) -> filter P (f <$> l) = f <$> filter P l.
Proof.
  intros Hiff. induction l as [| a l IH]; [reflexivity |].
  rewrite fmap_cons, !filter_cons.
  destruct (decide (P (f a))) as [Hfa|Hfa], (decide (P a)) as [Ha|Ha].
  - rewrite fmap_cons, IH. reflexivity.
  - exfalso. apply Ha, Hiff, Hfa.
  - exfalso. apply Hfa, Hiff, Ha.
  - exact IH.
Qed.

Lemma spelledFree_floor slot fl :
  floor (spelledFree slot) = Some fl <-> floor slot = Some fl.
Proof. unfold spelledFree. destruct (decide _); reflexivity. Qed.

Lemma spelledFree_vacant slot :
  (state (spelledFree slot) = Some free
   \/ state (spelledFree slot) = Some available)
  <-> (state slot = Some free \/ state slot = Some available).
Proof.
  unfold spelledFree. destruct (decide _) as [Hav|]; [| reflexivity].
  simpl. rewrite Hav. split; intros _; [right | left]; reflexivity.
Qed.

Lemma spelledFree_occupied slot :
  state (spelledFree slot) = Some occupied <-> state slot = Some occupied.
Proof.
  unfold spelledFree. destruct (decide _) as [Hav|]; [| reflexivity].
  simpl. rewrite Hav. split; discriminate.
Qed.

Lemma slotsToAnalyze_spelledFree selectedFloor l :
  slotsToAnalyze selectedFloor (spelledFree <$> l)
  = spelledFree <$> slotsToAnalyze selectedFloor l.
Proof.
  unfold slotsToAnalyze, getSlotsForFloor.
  destruct selectedFloor as [fl|]; [| reflexivity].
  destruct (falsy fl); [reflexivity |].
  apply filter_fmap_stable. intros slot. apply spelledFree_floor.
Qed.

(** The statistics do read both values the same way: respelling every
    [available] slot as [free] changes none of the counts. *)
Lemma stats_count_available_as_free selectedFloor l :
  freeSlots selectedFloor (spelledFree <$> l) = freeSlots selectedFloor l
  /\ occupiedSlots selectedFloor (spelledFree <$> l)
     = occupiedSlots selectedFloor l
  /\ totalSlots selectedFloor (spelledFree <$> l) = totalSlots selectedFloor l.
Proof.
  unfold freeSlots, occupiedSlots, totalSlots.
  rewrite slotsToAnalyze_spelledFree.
  rewrite !filter_fmap_stable, !length_fmap;
    [repeat split; reflexivity | apply spelledFree_occupied
     | apply spelledFree_vacant].
Qed.

(** C8 on the same slot stored once as [available] and once as [free]: the
    statistics count both as one free slot, but the simulator does not scale
    the probability of the [available] one (0.02 against 0.03), so a draw of
    0.025 flips only the [free] one, and when the draw is below both
    probabilities the [free] slot becomes [occupied] while the [available]
    one becomes [free]. *)
Theorem drift_treats_available_unlike_free :
  spelledFree availableSlot = freeSlot
  /\ freeSlots None [availableSlot] = 1%nat
  /\ freeSlots None [freeSlot] = 1%nat
  /\ changeProbability availableSlot = 0.02%Q
  /\ changeProbability freeSlot = (0.02 * 1.5)%Q
  /\ state (driftSlot 60005 0.025 freeSlot) = Some occupied
  /\ state (driftSlot 60005 0.025 availableSlot) = Some available
  /\ state (driftSlot 60005 0 freeSlot) = Some occupied
  /\ state (driftSlot 60005 0 availableSlot) = Some free.
Proof. repeat split; reflexivity. Qed.

(** ** The older variant *)

(** The feed-less variant runs the same per-slot callback on every tick, with
    no guard. *)
Lemma standalone_tick_lookup now random (l : list ParkingSlot) (i : nat) :
  simulateRealisticParking_standalone now random l !! i
  = driftSlot now (random i) <$> l !! i.
Proof.
  unfold simulateRealisticParking_standalone, driftSlots.
  rewrite list_lookup_imap. reflexivity.
Qed.

(** * Further properties of the dispatcher *)

Ltac split_type_tests :=
  repeat match goal with
         | |- context [String.eqb ?a ?b] => destruct (String.eqb a b)
         end.

(** The dispatcher only ever writes the store, the backend status, the
    history and the console. *)
Lemma handleWebSocketMessage_frame now message st :
  let st' := stateOf (handleWebSocketMessage now message st) in
  connectionStatus st' = connectionStatus st
  /\ wsConnection st' = wsConnection st
  /\ reconnectAttempts st' = reconnectAttempts st
  /\ reconnectTimers st' = reconnectTimers st
  /\ lastMessageTime st' = lastMessageTime st
  /\ driftInterval st' = driftInterval st
  /\ console st' = console st ++ [message].
Proof.
  unfold handleWebSocketMessage. split_type_tests;
    unfold handleInitialData, handleBulkUpdate, handleSingleUpdate,
      handleStatus, handleUnknown;
    repeat case_match; repeat split; reflexivity.
Qed.




Lemma unknown_dispatch now t d st :
  t ∉ knownTypes ->
  handleWebSocketMessage now (mkMessage t d) st =
    Returned (handleUnknown d (consoleLog (mkMessage t d) st)).
Proof.
  unfold knownTypes. intros Hnot.
  repeat (apply not_elem_of_cons in Hnot as [?%String.eqb_neq Hnot]).
  unfold handleWebSocketMessage. simpl.
  repeat match goal with H : String.eqb _ _ = false |- _ => rewrite H; clear H end.
  reflexivity.
Qed.

(** X2: an envelope whose type is none of the seven known ones replaces the
    store by its [slots] list whenever the payload is an object with such a
    list, also when the list is empty (the store is then emptied); in every
    other case, also when the payload has [displays] data or is itself a
    list, the store is unchanged.  Backend status and history are never
    touched. *)
Theorem unknown_type_takes_slots_list (now : Z) (t : string) (d : Payload)
    (st : Dashboard) :
  t ∉ knownTypes ->
  let st' := stateOf (handleWebSocketMessage now (mkMessage t d) st) in
  (forall o l, d = PObject o -> slots o = SlotsList l ->
     parkingSlots st' = l)
  /\ (forall o, d = PObject o -> slots o = SlotsAbsent ->
        parkingSlots st' = parkingSlots st)
  /\ (isObject d = false \/ (exists l, d = PArray l) ->
        parkingSlots st' = parkingSlots st)
  /\ backendStatus st' = backendStatus st
  /\ statusHistory st' = statusHistory st.
Proof.
  intros Hnot st'. subst st'. rewrite (unknown_dispatch now t d st Hnot).
  simpl. unfold handleUnknown. split; [| split; [| split; [| split]]].
  - intros o l -> ->. reflexivity.
  - intros o -> ->. reflexivity.
  - intros [Hobj | [l ->]]; [| reflexivity].
    destruct d; simpl in Hobj; try discriminate; reflexivity.
  - repeat case_match; reflexivity.
  - repeat case_match; reflexivity.
Qed.

Lemma unknown_type_takes_slots_list_witness :
  parkingSlots
    (stateOf (handleWebSocketMessage 7
                (mkMessage "snapshot" (slotsPayload [])) (storeOf [slotA1])))
  = [].
Proof.
  refine (proj1 (unknown_type_takes_slots_list 7 "snapshot" (slotsPayload [])
                   (storeOf [slotA1]) _) _ [] eq_refl eq_refl).
  unfold knownTypes. intros Hin.
  repeat (apply elem_of_cons in Hin as [Heq | Hin]; [discriminate Heq |]).
  apply elem_of_nil in Hin. exact Hin.
Defined.

(** X3: in an [initial_data] envelope a [slots] list takes precedence by being
    present, not by being non-empty: when the payload has an empty [slots]
    list the store is left unchanged whatever the payload's [displays] field
    holds, and when it has a non-empty one the [displays] field is never
    read. *)
Theorem initial_data_slots_shadow_displays (now : Z) (o : DataObject)
    (l : list ParkingSlot) (st : Dashboard) :
  slots o = SlotsList l ->
  let st' := stateOf (handleWebSocketMessage now
                        (mkMessage "initial_data" (PObject o)) st) in
  (l = [] -> parkingSlots st' = parkingSlots st)
  /\ (l <> [] -> parkingSlots st' = l)
  /\ (forall o', slots o' = SlotsList l ->
        parkingSlots
          (stateOf (handleWebSocketMessage now
                      (mkMessage "initial_data" (PObject o')) st))
        = parkingSlots st').
Proof.
  intros Hs st'.
  assert (Hany : forall o', slots o' = SlotsList l ->
            parkingSlots
              (stateOf (handleWebSocketMessage now
                          (mkMessage "initial_data" (PObject o')) st))
            = match l with [] => parkingSlots st | _ :: _ => l end).
  { intros o' Hs'. rewrite initial_data_store. simpl. rewrite Hs'.
    reflexivity. }
  subst st'. rewrite (Hany o Hs). split; [| split].
  - intros ->. reflexivity.
  - intros Hne. destruct l; [contradiction | reflexivity].
  - intros o' Hs'. apply (Hany o' Hs').
Qed.

Lemma initial_data_slots_shadow_displays_witness :
  parkingSlots
    (stateOf (handleWebSocketMessage 7
                (mkMessage "initial_data"
                   (PObject {| slots := SlotsList [];
                               displays := DisplaysList [slotA1];
                               updates := None; updateCount := None;
                               body := emptyObject |}))
                (storeOf [emptyObject])))
  = [emptyObject].
Proof.
  refine (proj1 (initial_data_slots_shadow_displays 7
                   {| slots := SlotsList [];
                      displays := DisplaysList [slotA1];
                      updates := None; updateCount := None;
                      body := emptyObject |} [] (storeOf [emptyObject])
                   eq_refl) eq_refl).
Defined.

(** ** The status history *)

Lemma pushHistory_length entry prev :
  length (pushHistory entry prev) = S (Nat.min (length prev) 9).
Proof.
  unfold pushHistory. rewrite length_app, length_drop. simpl. lia.
Qed.

Lemma handleWebSocketMessage_history now message st :
  let st' := stateOf (handleWebSocketMessage now message st) in
  statusHistory st' = statusHistory st
  \/ statusHistory st' = pushHistory (now, data message) (statusHistory st).
Proof.
  unfold handleWebSocketMessage. split_type_tests;
    unfold handleInitialData, handleBulkUpdate, handleSingleUpdate,
      handleStatus, handleUnknown;
    repeat case_match; simpl; auto.
Qed.

Lemma step_history_bounded st ev :
  (length (statusHistory st) <= 10)%nat ->
  (length (statusHistory (step st ev)) <= 10)%nat.
Proof.
  intros Hle.
  destruct ev as [ro cr | | now parsed | code | | i ro cr | now random |];
    unfold step; simpl.
  - destruct ro, cr; exact Hle.
  - exact Hle.
  - destruct parsed as [m|]; simpl; [| exact Hle].
    destruct (handleWebSocketMessage_history now m (setLastMessageTime now st))
      as [-> | ->]; [exact Hle |].
    rewrite pushHistory_length. lia.
  - unfold onclose. simpl. destruct (negb (code =? 1000) && _); exact Hle.
  - exact Hle.
  - unfold retryTimer. destruct (reconnectTimers st !! i); [| exact Hle].
    destruct ro, cr; exact Hle.
  - unfold driftTick, simulateRealisticParking.
    destruct (driftInterval st) as [c|]; [| exact Hle].
    destruct (decide (c = connected)); exact Hle.
  - unfold render. destruct (renderThrows st); exact Hle.
Qed.

(** X4: the status history never holds more than ten entries, after any
    sequence of events; a [status] envelope whose payload is an object puts
    its entry last and keeps the nine newest earlier entries in order. *)
Theorem status_history_bounded (t0 : Z) (evs : list Event) (now : Z)
    (d : Payload) :
  let st := run evs (initialState t0) in
  (length (statusHistory st) <= 10)%nat
  /\ (isObject d = true ->
        statusHistory
          (stateOf (handleWebSocketMessage now (mkMessage "status" d) st))
        = drop (length (statusHistory st) - 9) (statusHistory st)
            ++ [(now, d)]).
Proof.
  intros st. split.
  - subst st. generalize (initialState t0),
      (Nat.le_0_l 10 : (length (statusHistory (initialState t0)) <= 10)%nat).
    induction evs as [| ev evs IH]; intros s Hs; [exact Hs |].
    simpl. destruct (unmounts ev s); [exact Hs |].
    apply (IH (step s ev)), step_history_bounded, Hs.
  - intros Hobj. rewrite status_dispatch. simpl. unfold handleStatus.
    rewrite Hobj. destruct d as [| | l | o]; try discriminate; simpl.
    + reflexivity.
    + destruct (0 <? length (slotsFromDisplays now (displays o)))%nat;
        reflexivity.
Qed.

Lemma status_history_bounded_witness :
  statusHistory
    (stateOf (handleWebSocketMessage 9 (mkMessage "status" (PArray []))
                (run [Message 8 (Some (mkMessage "status" (PArray [])))]
                   (initialState 0))))
  = [(8, PArray []); (9, PArray [])].
Proof.
  refine (proj2 (status_history_bounded 0
                   [Message 8 (Some (mkMessage "status" (PArray [])))]
                   9 (PArray [])) eq_refl).
Defined.

(** ** Keyed [displays] mappings *)

Lemma entriesToSlots_ids now entries :
  id <$> entriesToSlots now entries = Some <$> objectKeys entries.
Proof.
  induction entries as [| [key [value|]] rest IH].
  - reflexivity.
  - simpl entriesToSlots. simpl objectKeys. rewrite !fmap_cons, IH.
    reflexivity.
  - exact IH.
Qed.

Lemma objectKeys_length entries :
  (length (objectKeys entries) <= length entries)%nat.
Proof.
  induction entries as [| [key [value|]] rest IH]; simpl; lia.
Qed.

(** X5: the slots extracted from a keyed [displays] mapping take their ids
    from the keys of the entries whose value is an object, in the order of the
    entries; an [id] inside the value is ignored and entries with any other
    value give no slot, so there are never more slots than entries.  A
    [status] envelope with at least one such entry makes exactly those keys
    the ids of the store. *)
Theorem displays_map_ids_are_keys (now : Z)
    (entries : list (string * DisplayEntry)) (o : DataObject)
    (st : Dashboard) :
  id <$> entriesToSlots now entries = Some <$> objectKeys entries
  /\ (length (entriesToSlots now entries) <= length entries)%nat
  /\ (displays o = DisplaysMap entries -> objectKeys entries <> [] ->
        id <$> parkingSlots
                 (stateOf (handleWebSocketMessage now
                             (mkMessage "status" (PObject o)) st))
        = Some <$> objectKeys entries).
Proof.
  split; [apply entriesToSlots_ids |]. split.
  - rewrite <- (length_fmap id), entriesToSlots_ids, length_fmap.
    apply objectKeys_length.
  - intros Hd Hne. rewrite status_dispatch. simpl.
    rewrite handleStatus_slots. simpl. rewrite Hd. simpl.
    destruct (entriesToSlots now entries) eqn:Hslots.
    + exfalso. apply Hne.
      assert (Hids := entriesToSlots_ids now entries).
      rewrite Hslots in Hids. simpl in Hids.
      destruct (objectKeys entries); [reflexivity | discriminate].
    + rewrite <- Hslots. apply entriesToSlots_ids.
Qed.

Lemma displays_map_ids_are_keys_witness :
  id <$> parkingSlots
           (stateOf (handleWebSocketMessage 7
                       (mkMessage "status"
                          (PObject {| slots := SlotsAbsent;
                                      displays :=
                                        DisplaysMap
                                          [("n", EntryOther);
                                           ("B7", EntryObject slotA1)];
                                      updates := None; updateCount := None;
                                      body := emptyObject |}))
                       (storeOf [])))
  = [Some "B7"].
Proof.
  refine (proj2 (proj2 (displays_map_ids_are_keys 7
            [("n", EntryOther); ("B7", EntryObject slotA1)]
            {| slots := SlotsAbsent;
               displays := DisplaysMap [("n", EntryOther);
                                        ("B7", EntryObject slotA1)];
               updates := None; updateCount := None;
               body := emptyObject |} (storeOf []))) eq_refl _).
  discriminate.
Defined.

(** * Further properties of the normaliser *)

Lemma js_or_default_not_falsy {A} `{Falsy A} (x : option A) (d : A) :
  falsy d = false -> falsy (js_or_default x d) = false.
Proof.
  intros Hd. destruct x as [v|]; simpl; [| exact Hd].
  destruct (falsy v) eqn:Hv; [exact Hd | exact Hv].
Qed.

Lemma js_or_default_again {A} `{Falsy A} (x : option A) (d : A) :
  js_or_default (Some (js_or_default x d)) d = js_or_default x d.
Proof.
  simpl. destruct (falsy (js_or_default x d)) eqn:Hv; [| reflexivity].
  destruct x as [v|]; simpl in *; [| reflexivity].
  destruct (falsy v) eqn:Hfv; [reflexivity | congruence].
Qed.

Lemma js_or_alone_again {A} `{Falsy A} (x : option A) (d : A) :
  js_or_default (js_or (Some (js_or_default x d)) None) d
  = js_or_default x d.
Proof.
  unfold js_or. simpl.
  destruct (falsy (js_or_default x d)) eqn:Hv; simpl.
  - destruct x as [v|]; simpl in *; [| reflexivity].
    destruct (falsy v) eqn:Hfv; [reflexivity | congruence].
  - rewrite Hv. reflexivity.
Qed.

Lemma normalizeElement_fullRecord now slot :
  fullRecord (normalizeElement now slot).
Proof.
  unfold fullRecord, normalizeElement, truthy. simpl.
  rewrite !js_or_default_not_falsy by reflexivity.
  repeat split; eauto.
Qed.

Lemma normalizeElement_idempotent now slot :
  normalizeElement now (normalizeElement now slot) = normalizeElement now slot.
Proof.
  unfold normalizeElement.
  cbn [id state lastUpdated zone floor duration slot_id status timestamp].
  rewrite !js_or_alone_again, !js_or_default_again.
  reflexivity.
Qed.

(** X6: a record built by the normaliser for an element of a [displays]
    list or of a bare list always has all six slot keys and none of the
    alternative keys, and its [id], [zone] and [floor] are never empty or 0;
    normalising such a record again (at the same clock value) gives it back
    unchanged.  So every record of the store after such a snapshot is
    full. *)
Theorem normalized_records_are_full (now : Z) (l : list ParkingSlot)
    (st : Dashboard) :
  (forall slot, fullRecord (normalizeElement now slot))
  /\ (forall slot,
        normalizeElement now (normalizeElement now slot)
        = normalizeElement now slot)
  /\ (l <> [] ->
        Forall fullRecord
          (parkingSlots
             (stateOf (handleWebSocketMessage now
                         (mkMessage "initial_data" (PArray l)) st)))).
Proof.
  split; [apply normalizeElement_fullRecord |].
  split; [apply normalizeElement_idempotent |].
  intros Hne. rewrite initial_data_store. simpl.
  destruct l as [| s l]; [contradiction |].
  change (normalizeElement now s :: (normalizeElement now <$> l))
    with (normalizeElement now <$> s :: l).
  apply Forall_fmap, Forall_forall. intros slot _.
  apply normalizeElement_fullRecord.
Qed.

Lemma normalized_records_are_full_witness :
  Forall fullRecord
    (parkingSlots
       (stateOf (handleWebSocketMessage 7
                   (mkMessage "initial_data" (PArray [emptyObject]))
                   (storeOf [])))).
Proof.
  refine (proj2 (proj2 (normalized_records_are_full 7 [emptyObject]
                          (storeOf []))) _).
  discriminate.
Defined.

(** X7: the normaliser treats a falsy value like a missing one.  An [id] that
    is absent or the empty string gives way to [slot_id], and to ["Unknown"]
    when that is absent or empty too; a [lastUpdated] that is absent or 0
    gives way to [timestamp], and to the current time when that is absent or
    0 too; [state] gives way to [status] and then to [free]; an empty [zone]
    becomes ["A"] and a [floor] of 0 becomes 1.  A value that is present and
    truthy is always kept. *)
Theorem normalizer_falsy_is_missing (now : Z) (slot : ParkingSlot) :
  let slot' := normalizeElement now slot in
  (truthy (id slot) = true -> id slot' = id slot)
  /\ (truthy (id slot) = false -> truthy (slot_id slot) = true ->
        id slot' = slot_id slot)
  /\ (truthy (id slot) = false -> truthy (slot_id slot) = false ->
        id slot' = Some "Unknown")
  /\ (truthy (lastUpdated slot) = true -> lastUpdated slot' = lastUpdated slot)
  /\ (truthy (lastUpdated slot) = false -> truthy (timestamp slot) = true ->
        lastUpdated slot' = timestamp slot)
  /\ (truthy (lastUpdated slot) = false -> truthy (timestamp slot) = false ->
        lastUpdated slot' = Some now)
  /\ (forall s, state slot = Some s -> state slot' = Some s)
  /\ (forall s, state slot = None -> status slot = Some s ->
        state slot' = Some s)
  /\ (truthy (zone slot) = true -> zone slot' = zone slot)
  /\ (truthy (zone slot) = false -> zone slot' = Some "A")
  /\ (truthy (floor slot) = true -> floor slot' = floor slot)
  /\ (truthy (floor slot) = false -> floor slot' = Some 1)
  /\ (truthy (duration slot) = true -> duration slot' = duration slot)
  /\ (truthy (duration slot) = false -> duration slot' = Some 0).
Proof.
  assert (Hkeep : forall A (F : Falsy A) (x : option A) d,
            truthy x = true -> Some (js_or_default x d) = x).
  { intros A F [v|] d; simpl; [| discriminate].
    destruct (falsy v); [discriminate | reflexivity]. }
  assert (Hdrop : forall A (F : Falsy A) (x : option A) d,
            truthy x = false -> js_or_default x d = d).
  { intros A F [v|] d; simpl; [| reflexivity].
    destruct (falsy v); [reflexivity | discriminate]. }
  unfold normalizeElement, js_or. simpl.
  repeat split.
  - intros H. rewrite H. apply Hkeep, H.
  - intros H1 H2. rewrite H1. apply Hkeep, H2.
  - intros H1 H2. rewrite H1, Hdrop by exact H2. reflexivity.
  - intros H. rewrite H. apply Hkeep, H.
  - intros H1 H2. rewrite H1. apply Hkeep, H2.
  - intros H1 H2. rewrite H1, Hdrop by exact H2. reflexivity.
  - intros s ->. reflexivity.
  - intros s -> ->. reflexivity.
  - intros H. apply Hkeep, H.
  - intros H. rewrite Hdrop by exact H. reflexivity.
  - intros H. apply Hkeep, H.
  - intros H. rewrite Hdrop by exact H. reflexivity.
  - intros H. apply Hkeep, H.
  - intros H. rewrite Hdrop by exact H. reflexivity.
Qed.

Lemma normalizer_falsy_is_missing_witness :
  id (normalizeElement 7
        {| id := Some ""; state := None; lastUpdated := Some 0;
           zone := Some ""; floor := Some 0; duration := None;
           slot_id := Some "D4"; status := Some occupied;
           timestamp := Some 99 |})
  = Some "D4".
Proof.
  refine (proj1 (proj2 (normalizer_falsy_is_missing 7
            {| id := Some ""; state := None; lastUpdated := Some 0;
               zone := Some ""; floor := Some 0; duration := None;
               slot_id := Some "D4"; status := Some occupied;
               timestamp := Some 99 |})) _ _); reflexivity.
Defined.

(** * Further properties of delta application *)

Lemma singleUpdate_as_insert now update (l : list ParkingSlot) i slot :
  NoDup (id <$> l) -> l !! i = Some slot -> id slot = id update ->
  singleUpdate now update l = <[i := mergeUpdate now slot update]> l.
Proof.
  intros Hnd Hi Hid. apply list_eq. intros j.
  rewrite singleUpdate_lookup.
  destruct (decide (i = j)) as [<- | Hne].
  - rewrite list_lookup_insert_eq by (eapply lookup_lt_Some; exact Hi).
    rewrite Hi. simpl.
    destruct (decide (id slot = id update)); [reflexivity | contradiction].
  - rewrite list_lookup_insert_ne by exact Hne.
    destruct (l !! j) as [s|] eqn:Hj; [| reflexivity]. simpl.
    destruct (decide (id s = id update)) as [Heq|]; [| reflexivity].
    exfalso. apply Hne.
    apply (NoDup_lookup (id <$> l) i j (id slot) Hnd).
    + rewrite list_lookup_fmap, Hi. reflexivity.
    + rewrite list_lookup_fmap, Hj. simpl. congruence.
Qed.

Lemma applyUpdate_as_single now update (l : list ParkingSlot) :
  NoDup (id <$> l) -> applyUpdate now l update = singleUpdate now update l.
Proof.
  intros Hnd. unfold applyUpdate.
  destruct (list_find _ l) as [[i slot]|] eqn:Hfind.
  - apply list_find_Some in Hfind as (Hi & Hid & _).
    symmetry. apply (singleUpdate_as_insert now update l i slot Hnd Hi Hid).
  - apply list_find_None in Hfind. symmetry.
    apply singleUpdate_no_match. intros slot Hin.
    apply (proj1 (Forall_forall _ _) Hfind slot Hin).
Qed.

Lemma bulkUpdate_as_singles now upds (l : list ParkingSlot) :
  NoDup (id <$> l) -> bulkUpdate now upds l = singleUpdates now upds l.
Proof.
  revert l. induction upds as [| u upds IH]; intros l Hnd; [reflexivity |].
  change (bulkUpdate now (u :: upds) l)
    with (bulkUpdate now upds (applyUpdate now l u)).
  change (singleUpdates now (u :: upds) l)
    with (singleUpdates now upds (singleUpdate now u l)).
  rewrite (applyUpdate_as_single now u l Hnd).
  apply IH. rewrite singleUpdate_ids. exact Hnd.
Qed.

Lemma singleUpdate_clock_free now now' update (l : list ParkingSlot) :
  now' = now \/ truthy (lastUpdated update) = true ->
  singleUpdate now' update l = singleUpdate now update l.
Proof.
  intros [-> | Htruthy]; [reflexivity |].
  assert (Hclock : js_or_default (lastUpdated update) now'
                   = js_or_default (lastUpdated update) now).
  { destruct (lastUpdated update) as [t|]; simpl in *; [| discriminate].
    destruct (falsy t); [discriminate | reflexivity]. }
  unfold singleUpdate. apply list_fmap_ext. intros i slot _. simpl.
  unfold mergeUpdate. rewrite Hclock. reflexivity.
Qed.

Lemma single_update_envelopes now (timed : list (Z * ParkingSlot)) st :
  Forall (fun tu : Z * ParkingSlot =>
            tu.1 = now \/ truthy (lastUpdated tu.2) = true) timed ->
  parkingSlots
    (foldl (fun s (tu : Z * ParkingSlot) =>
              stateOf (handleWebSocketMessage tu.1
                         (mkMessage "single_update" (slotPayload tu.2)) s))
           st timed)
  = singleUpdates now (snd <$> timed) (parkingSlots st).
Proof.
  intros Hall. revert st.
  induction Hall as [| [t u] timed Htu _ IH]; intros st; [reflexivity |].
  simpl foldl. rewrite IH. unfold singleUpdates. rewrite fmap_cons.
  simpl foldl. f_equal.
  change (singleUpdate t u (parkingSlots st)
          = singleUpdate now u (parkingSlots st)).
  apply singleUpdate_clock_free, Htu.
Qed.

(** X8: while the ids of the store are pairwise distinct, one [bulk_update]
    envelope gives the same store as its deltas sent one by one as
    [single_update] envelopes, in the same order, provided that each of
    those is handled at the clock value of the batch or carries a
    [lastUpdated] of its own other than 0.  Without that proviso the stamps
    differ (a delta without [lastUpdated] handled at 8 instead of 7), and
    with a duplicated id the stores differ: the batch merges the delta into
    the first record with that id only, the single update into every one. *)
Theorem bulk_update_is_sequence_of_single_updates (now : Z)
    (timed : list (Z * ParkingSlot)) (st : Dashboard) :
  (NoDup (id <$> parkingSlots st) ->
   Forall (fun tu : Z * ParkingSlot =>
             tu.1 = now \/ truthy (lastUpdated tu.2) = true) timed ->
     parkingSlots
       (stateOf (handleWebSocketMessage now
                   (mkMessage "bulk_update" (updatesPayload (snd <$> timed)))
                   st))
     = parkingSlots
         (foldl (fun s (tu : Z * ParkingSlot) =>
                   stateOf (handleWebSocketMessage tu.1
                              (mkMessage "single_update" (slotPayload tu.2))
                              s))
                st timed))
  /\ bulkUpdate 7 [slotA1] [slotA1] <> singleUpdate 8 slotA1 [slotA1]
  /\ bulkUpdate now [slotA1] [slotA1; slotA1]
     = [mergeUpdate now slotA1 slotA1; slotA1]
  /\ singleUpdate now slotA1 [slotA1; slotA1]
     = [mergeUpdate now slotA1 slotA1; mergeUpdate now slotA1 slotA1].
Proof.
  split; [| split; [discriminate | split; reflexivity]].
  intros Hnd Hall. rewrite (single_update_envelopes now timed st Hall).
  unfold updatesPayload.
  rewrite (bulk_update_store now _ (snd <$> timed) st); [| reflexivity].
  apply bulkUpdate_as_singles, Hnd.
Qed.

Lemma bulk_update_is_sequence_of_single_updates_witness :
  parkingSlots
    (stateOf (handleWebSocketMessage 7
                (mkMessage "bulk_update" (updatesPayload [slotA1; freeSlot]))
                (storeOf [slotA1; emptyObject])))
  = parkingSlots
      (foldl (fun s (tu : Z * ParkingSlot) =>
                stateOf (handleWebSocketMessage tu.1
                           (mkMessage "single_update" (slotPayload tu.2))
                           s))
             (storeOf [slotA1; emptyObject]) [(7, slotA1); (900, freeSlot)]).
Proof.
  refine (proj1 (bulk_update_is_sequence_of_single_updates 7
                   [(7, slotA1); (900, freeSlot)]
                   (storeOf [slotA1; emptyObject])) _ _).
  - apply (bool_decide_unpack _). reflexivity.
  - apply Forall_cons. split; [left; reflexivity |].
    apply Forall_cons. split; [right; reflexivity | apply Forall_nil_2].
Defined.

Lemma overlay_again {A} (over base : option A) :
  overlay over (overlay over base) = overlay over base.
Proof. destruct over; reflexivity. Qed.

Lemma mergeUpdate_again now now' slot update :
  js_or_default (lastUpdated update) now'
  = js_or_default (lastUpdated update) now ->
  mergeUpdate now' (mergeUpdate now slot update) update
  = mergeUpdate now slot update.
Proof.
  intros Hclock. unfold mergeUpdate, with_lastUpdated, spread.
  cbn [id state lastUpdated zone floor duration slot_id status timestamp].
  rewrite !overlay_again, Hclock. reflexivity.
Qed.

Lemma singleUpdate_again now now' update (l : list ParkingSlot) :
  js_or_default (lastUpdated update) now'
  = js_or_default (lastUpdated update) now ->
  singleUpdate now' update (singleUpdate now update l)
  = singleUpdate now update l.
Proof.
  intros Hclock. unfold singleUpdate. rewrite <- list_fmap_compose.
  apply list_fmap_ext. intros i slot _. simpl.
  destruct (decide (id slot = id update)) as [Heq | Hne].
  - rewrite (mergeUpdate_id now slot update Heq).
    destruct (decide (id slot = id update)); [| contradiction].
    apply mergeUpdate_again, Hclock.
  - destruct (decide (id slot = id update)); [contradiction | reflexivity].
Qed.

Lemma applyUpdate_again now now' update (l : list ParkingSlot) :
  js_or_default (lastUpdated update) now'
  = js_or_default (lastUpdated update) now ->
  applyUpdate now' (applyUpdate now l update) update
  = applyUpdate now l update.
Proof.
  intros Hclock.
  destruct (list_find (fun s => id s = id update) l) as [[i slot]|] eqn:Hfind.
  - rewrite (applyUpdate_found now l update i slot Hfind).
    apply list_find_Some in Hfind as (Hi & Hid & Hfirst).
    assert (Hlt : (i < length l)%nat) by (eapply lookup_lt_Some; exact Hi).
    rewrite (applyUpdate_found now'
               (<[i := mergeUpdate now slot update]> l) update i
               (mergeUpdate now slot update)).
    + rewrite list_insert_insert_eq, (mergeUpdate_again now now') by exact Hclock.
      reflexivity.
    + apply list_find_Some. split; [| split].
      * apply list_lookup_insert_eq, Hlt.
      * rewrite (mergeUpdate_id now slot update Hid). exact Hid.
      * intros j s Hj Hji. rewrite list_lookup_insert_ne in Hj by lia.
        apply (Hfirst j s Hj Hji).
  - assert (Hsame : applyUpdate now l update = l)
      by (unfold applyUpdate; rewrite Hfind; reflexivity).
    rewrite Hsame. unfold applyUpdate. rewrite Hfind. reflexivity.
Qed.

(** X9: applying a delta a second time changes nothing, in a [single_update]
    and in a [bulk_update] alike, when both applications read the same clock
    value; and when the delta carries a [lastUpdated] other than 0 the clock
    is not used at all, so a replay at any later time is harmless too. *)
Theorem delta_replay_is_harmless (now now' : Z) (update : ParkingSlot)
    (l : list ParkingSlot) :
  singleUpdate now update (singleUpdate now update l)
  = singleUpdate now update l
  /\ applyUpdate now (applyUpdate now l update) update
     = applyUpdate now l update
  /\ (truthy (lastUpdated update) = true ->
        singleUpdate now' update l = singleUpdate now update l
        /\ applyUpdate now' l update = applyUpdate now l update
        /\ singleUpdate now' update (singleUpdate now update l)
           = singleUpdate now update l
        /\ applyUpdate now' (applyUpdate now l update) update
           = applyUpdate now l update).
Proof.
  split; [apply singleUpdate_again; reflexivity |].
  split; [apply applyUpdate_again; reflexivity |].
  intros Htruthy.
  assert (Hclock : js_or_default (lastUpdated update) now'
                   = js_or_default (lastUpdated update) now).
  { destruct (lastUpdated update) as [t|]; simpl in *; [| discriminate].
    destruct (falsy t); [discriminate | reflexivity]. }
  assert (Hmerge : forall slot,
            mergeUpdate now' slot update = mergeUpdate now slot update).
  { intros slot. unfold mergeUpdate. rewrite Hclock. reflexivity. }
  split; [| split; [| split]].
  - unfold singleUpdate. apply list_fmap_ext. intros i slot _. simpl.
    rewrite Hmerge. reflexivity.
  - unfold applyUpdate. destruct (list_find _ l) as [[i slot]|];
      [rewrite Hmerge |]; reflexivity.
  - apply singleUpdate_again, Hclock.
  - apply applyUpdate_again, Hclock.
Qed.

Lemma delta_replay_is_harmless_witness :
  singleUpdate 900 freeSlot (singleUpdate 7 freeSlot [slotA1])
  = singleUpdate 7 freeSlot [slotA1].
Proof.
  refine (proj1 (proj2 (proj2 (proj2 (proj2
            (delta_replay_is_harmless 7 900 freeSlot [slotA1])) _)))).
  reflexivity.
Defined.

(** * Further properties of the drift simulator *)

Lemma driftSlot_keys now random slot :
  id (driftSlot now random slot) = id slot
  /\ zone (driftSlot now random slot) = zone slot
  /\ floor (driftSlot now random slot) = floor slot
  /\ slot_id (driftSlot now random slot) = slot_id slot
  /\ status (driftSlot now random slot) = status slot
  /\ timestamp (driftSlot now random slot) = timestamp slot.
Proof.
  unfold driftSlot. destruct (Qltb random (changeProbability slot));
    repeat split; reflexivity.
Qed.

Lemma driftSlots_fmap_stable {B} (g : ParkingSlot -> B) now random
    (l : list ParkingSlot) :
  (forall u slot, g (driftSlot now u slot) = g slot) ->
  g <$> driftSlots now random l = g <$> l.
Proof.
  intros Hg. apply list_eq. intros i. unfold driftSlots.
  rewrite !list_lookup_fmap, list_lookup_imap.
  destruct (l !! i) as [slot|]; simpl; [rewrite Hg |]; reflexivity.
Qed.

Lemma driftTick_store now random st :
  parkingSlots (step st (DriftTick now random)) = parkingSlots st
  \/ parkingSlots (step st (DriftTick now random))
     = driftSlots now random (parkingSlots st).
Proof.
  unfold step, handle, driftTick, simulateRealisticParking.
  destruct (driftInterval st) as [c|]; [| left; reflexivity].
  destruct (decide (c = connected)); [left | right]; reflexivity.
Qed.

(** X10: a drift tick never adds, removes or reorders slots and never touches
    a slot's [id], [zone] or [floor]: position by position the store keeps
    them, whatever the draws; only [state], [lastUpdated] and [duration] can
    differ.  It also leaves the connection, the backend status, the history
    and the console alone. *)
Theorem drift_tick_keeps_identity (now : Z) (random : nat -> Q)
    (st : Dashboard) :
  let st' := step st (DriftTick now random) in
  length (parkingSlots st') = length (parkingSlots st)
  /\ id <$> parkingSlots st' = id <$> parkingSlots st
  /\ zone <$> parkingSlots st' = zone <$> parkingSlots st
  /\ floor <$> parkingSlots st' = floor <$> parkingSlots st
  /\ connectionStatus st' = connectionStatus st
  /\ reconnectAttempts st' = reconnectAttempts st
  /\ reconnectTimers st' = reconnectTimers st
  /\ backendStatus st' = backendStatus st
  /\ statusHistory st' = statusHistory st
  /\ console st' = console st.
Proof.
  intros st'.
  assert (Hrest : connectionStatus st' = connectionStatus st
                  /\ reconnectAttempts st' = reconnectAttempts st
                  /\ reconnectTimers st' = reconnectTimers st
                  /\ backendStatus st' = backendStatus st
                  /\ statusHistory st' = statusHistory st
                  /\ console st' = console st).
  { subst st'. unfold step, handle, driftTick, simulateRealisticParking.
    destruct (driftInterval st) as [c|]; [| repeat split; reflexivity].
    destruct (decide (c = connected)); repeat split; reflexivity. }
  subst st'. destruct (driftTick_store now random st) as [-> | ->].
  - repeat split; try reflexivity; apply Hrest.
  - split; [unfold driftSlots; apply length_imap |].
    split; [apply driftSlots_fmap_stable; intros; apply driftSlot_keys |].
    split; [apply driftSlots_fmap_stable; intros; apply driftSlot_keys |].
    split; [apply driftSlots_fmap_stable; intros; apply driftSlot_keys |].
    exact Hrest.
Qed.

Lemma changeProbability_bounds slot :
  (0.01 <= changeProbability slot)%Q /\ (changeProbability slot <= 0.08)%Q.
Proof.
  unfold changeProbability.
  destruct (state slot) as [[| |]|];
    destruct (decide (floor slot = Some 1)), (decide (floor slot = Some 3)),
      (60 <? newDuration slot), (10 <? newDuration slot);
    split; apply Qle_bool_imp_le; reflexivity.
Qed.

Lemma driftSlot_high_draw now random slot :
  (0.08 <= random)%Q ->
  driftSlot now random slot = with_duration slot (newDuration slot).
Proof.
  intros Hhigh. apply driftSlot_not_below. unfold Qltb.
  assert (Hle : (changeProbability slot <= random)%Q).
  { eapply Qle_trans; [apply changeProbability_bounds | exact Hhigh]. }
  apply Qle_bool_iff in Hle. rewrite Hle. reflexivity.
Qed.

Lemma driftSlot_low_draw now random slot :
  (random < 0.01)%Q ->
  driftSlot now random slot =
    with_flip slot
      (if decide (state slot = Some free) then occupied else free) now 0.
Proof.
  intros Hlow. apply driftSlot_below. unfold Qltb.
  destruct (Qle_bool (changeProbability slot) random) eqn:Hle; [| reflexivity].
  apply Qle_bool_iff in Hle. exfalso.
  apply (Qlt_irrefl random).
  eapply Qlt_le_trans; [exact Hlow |].
  eapply Qle_trans; [apply changeProbability_bounds | exact Hle].
Qed.

(** X11: the transition probability of every slot lies between 0.01 and 0.08.
    Hence a draw of 0.08 or more never flips a slot (the slot only ages by a
    minute) and a draw below 0.01 always flips it, resetting [duration] to 0
    and [lastUpdated] to the current time. *)
Theorem transition_probability_bounds (now : Z) (random : Q)
    (slot : ParkingSlot) :
  ((0.01 <= changeProbability slot)%Q /\ (changeProbability slot <= 0.08)%Q)
  /\ ((0.08 <= random)%Q ->
        driftSlot now random slot
        = with_duration slot (js_or_default (duration slot) 0 + 1))
  /\ ((random < 0.01)%Q ->
        driftSlot now random slot
        = with_flip slot
            (if decide (state slot = Some free) then occupied else free)
            now 0).
Proof.
  split; [apply changeProbability_bounds |].
  split; [apply driftSlot_high_draw | apply driftSlot_low_draw].
Qed.

Lemma transition_probability_bounds_witness :
  driftSlot 60005 0.5 slotA1
  = {| id := Some "A1"; state := Some occupied; lastUpdated := None;
       zone := Some "A"; floor := Some 1; duration := Some 1;
       slot_id := None; status := None; timestamp := None |}.
Proof.
  refine (proj1 (proj2 (transition_probability_bounds 60005 0.5 slotA1)) _).
  apply Qle_bool_imp_le. reflexivity.
Defined.

Lemma aged_aged n m slot : aged m (aged n slot) = aged (n + m) slot.
Proof.
  unfold aged, with_duration. simpl.
  destruct (falsy (js_or_default (duration slot) 0 + n)) eqn:Hz.
  - apply Z.eqb_eq in Hz. f_equal. f_equal. lia.
  - f_equal. f_equal. lia.
Qed.

Lemma driftSlots_quiet now random (l : list ParkingSlot) :
  (forall i, (0.08 <= random i)%Q) ->
  driftSlots now random l = aged 1 <$> l.
Proof.
  intros Hquiet. apply list_eq. intros i. unfold driftSlots.
  rewrite list_lookup_imap, list_lookup_fmap.
  destruct (l !! i) as [slot|]; [| reflexivity]. simpl.
  rewrite (driftSlot_high_draw now (random i) slot (Hquiet i)). reflexivity.
Qed.

Lemma driftTicks_quiet ticks (l : list ParkingSlot) :
  Forall (fun tick : Z * (nat -> Q) => forall i, (0.08 <= tick.2 i)%Q) ticks ->
  ticks <> [] ->
  driftTicks ticks l = aged (Z.of_nat (length ticks)) <$> l.
Proof.
  revert l. induction ticks as [| t ticks IH]; intros l Hall Hne;
    [contradiction |].
  apply Forall_cons in Hall as [Ht Hall].
  change (driftTicks (t :: ticks) l)
    with (driftTicks ticks (driftSlots t.1 t.2 l)).
  rewrite (driftSlots_quiet t.1 t.2 l Ht).
  destruct ticks as [| t' ticks']; [reflexivity |].
  rewrite IH by (auto; discriminate).
  rewrite <- list_fmap_compose. apply list_fmap_ext. intros i slot _. simpl.
  rewrite aged_aged. f_equal. lia.
Qed.

(** X12: ticks without a flip add up.  After [n >= 1] ticks in which every
    draw is 0.08 or more, each slot is the slot it was with [duration] set
    to [(duration || 0) + n]; [state], [lastUpdated] and every other key are
    as before the first tick. *)
Theorem quiet_ticks_add_up (ticks : list (Z * (nat -> Q)))
    (l : list ParkingSlot) :
  Forall (fun tick : Z * (nat -> Q) => forall i, (0.08 <= tick.2 i)%Q) ticks ->
  ticks <> [] ->
  driftTicks ticks l
  = (fun slot =>
       with_duration slot
         (js_or_default (duration slot) 0 + Z.of_nat (length ticks))) <$> l.
Proof. apply driftTicks_quiet. Qed.

Lemma quiet_ticks_add_up_witness :
  driftTicks [(60000, fun _ => 0.5%Q); (120000, fun _ => 0.9%Q)]
    [slotA1; freeSlot]
  = [with_duration slotA1 2; with_duration freeSlot 17].
Proof.
  refine (quiet_ticks_add_up
            [(60000, fun _ => 0.5%Q); (120000, fun _ => 0.9%Q)]
            [slotA1; freeSlot] _ _).
  - repeat constructor; intros i; apply Qle_bool_imp_le; reflexivity.
  - discriminate.
Defined.

(** * Further properties of the connection manager *)

Lemma connectWebSocket_frame readyOpen created st :
  let st' := connectWebSocket readyOpen created st in
  wsConnection st' = wsConnection st
  /\ reconnectAttempts st' = reconnectAttempts st
  /\ reconnectTimers st' = reconnectTimers st
  /\ parkingSlots st' = parkingSlots st
  /\ lastMessageTime st' = lastMessageTime st
  /\ backendStatus st' = backendStatus st
  /\ statusHistory st' = statusHistory st
  /\ console st' = console st.
Proof. destruct readyOpen, created; repeat split; reflexivity. Qed.

Lemma step_not_writer ev st :
  ~ writesStore ev ->
  parkingSlots (step st ev) = parkingSlots st
  /\ backendStatus (step st ev) = backendStatus st
  /\ statusHistory (step st ev) = statusHistory st
  /\ console (step st ev) = console st
  /\ lastMessageTime (step st ev) = lastMessageTime st.
Proof.
  intros Hnot.
  destruct ev as [ro cr | | now parsed | code | | i ro cr | now random |];
    simpl in Hnot; try (exfalso; apply Hnot; exact I);
    unfold step, handle.
  - destruct ro, cr; repeat split; reflexivity.
  - repeat split; reflexivity.
  - unfold onclose. simpl.
    destruct (negb (code =? 1000) && _); repeat split; reflexivity.
  - repeat split; reflexivity.
  - unfold retryTimer. destruct (reconnectTimers st !! i);
      [| repeat split; reflexivity].
    destruct ro, cr; repeat split; reflexivity.
  - unfold render. destruct (renderThrows st); repeat split; reflexivity.
Qed.

(** X13: the slot store, the backend status, the history, the console and
    the time of the last message are written by inbound messages and, the
    store only, by drift ticks; connecting, opening, closing, an error event
    and a retry timer leave all five exactly as they were. *)
Theorem only_messages_and_ticks_write_store (ev : Event) (st : Dashboard) :
  ~ writesStore ev ->
  parkingSlots (step st ev) = parkingSlots st
  /\ backendStatus (step st ev) = backendStatus st
  /\ statusHistory (step st ev) = statusHistory st
  /\ console (step st ev) = console st
  /\ lastMessageTime (step st ev) = lastMessageTime st.
Proof. apply step_not_writer. Qed.

Lemma only_messages_and_ticks_write_store_witness :
  parkingSlots (step (storeOf [slotA1]) (Close 1006)) = [slotA1].
Proof.
  refine (proj1 (only_messages_and_ticks_write_store (Close 1006)
                   (storeOf [slotA1]) _)).
  simpl. intros H. exact H.
Defined.



Lemma step_exhausted st ev :
  notOpen ev -> reconnectAttempts st = 5%nat ->
  reconnectAttempts (step st ev) = 5%nat
  /\ (length (reconnectTimers (step st ev))
      <= length (reconnectTimers st))%nat.
Proof.
  intros Hnot Hfive.
  destruct ev as [ro cr | | now parsed | code | | i ro cr | now random |];
    simpl in Hnot; try contradiction; unfold step, handle.
  - destruct ro, cr; split; simpl; auto.
  - destruct (handleWebSocketMessage_frame now
                (match parsed with Some m => m | None => mkMessage "" PNull end)
                (setLastMessageTime now st)) as (_ & _ & Hra & Hrt & _).
    destruct parsed as [m|]; simpl; [| auto].
    rewrite Hra, Hrt. simpl. auto.
  - rewrite (onclose_no_retry code st) by (right; lia). simpl. auto.
  - simpl. auto.
  - unfold retryTimer. destruct (reconnectTimers st !! i) eqn:Hi; [| auto].
    destruct (connectWebSocket_frame ro cr
                (setReconnectTimers (delete i (reconnectTimers st)) st))
      as (_ & Hra & Hrt & _).
    unfold commit. simpl. rewrite Hra, Hrt. simpl. split; [exact Hfive |].
    rewrite length_delete by eauto. lia.
  - unfold driftTick, simulateRealisticParking.
    destruct (driftInterval st) as [c|]; [| auto].
    destruct (decide (c = connected)); simpl; auto.
  - unfold render. destruct (renderThrows st); simpl; auto.
Qed.

(** X15: once the retry counter has reached 5, nothing but the opening of a
    socket re-arms the retries.  Along any sequence of events without an
    open (explicit reconnect requests, closes with any code, errors,
    messages, timers, ticks) the counter stays at 5 and no retry is ever
    scheduled, so the pending retries can only run out; after an open the
    next abnormal close schedules a retry after 1000 ms again. *)
Theorem exhausted_retries_need_an_open (evs : list Event) (st : Dashboard)
    (code : Z) :
  reconnectAttempts st = 5%nat ->
  Forall notOpen evs ->
  reconnectAttempts (run evs st) = 5%nat
  /\ (length (reconnectTimers (run evs st))
      <= length (reconnectTimers st))%nat
  /\ reconnectTimers (step (run evs st) (Close code))
     = reconnectTimers (run evs st)
  /\ (code <> 1000 ->
        reconnectTimers (step (step (run evs st) Open) (Close code))
        = reconnectTimers (run evs st) ++ [1000]).
Proof.
  intros Hfive Hall.
  assert (Hrun : reconnectAttempts (run evs st) = 5%nat
                 /\ (length (reconnectTimers (run evs st))
                     <= length (reconnectTimers st))%nat).
  { revert st Hfive. induction Hall as [| ev evs Hev _ IH]; intros st Hfive;
      [split; [exact Hfive | reflexivity] |].
    simpl. destruct (unmounts ev st); [split; [exact Hfive | reflexivity] |].
    destruct (step_exhausted st ev Hev Hfive) as [Ha Hl].
    destruct (IH (step st ev) Ha) as [IHa IHl].
    split; [exact IHa |]. etransitivity; [exact IHl | exact Hl]. }
  destruct Hrun as [Ha Hl]. split; [exact Ha |]. split; [exact Hl |]. split.
  - apply step_close_no_retry. right. rewrite Ha. apply Nat.le_refl.
  - intros Hcode.
    destruct (step_close_retry code (step (run evs st) Open) Hcode) as [_ Ht].
    + simpl. lia.
    + rewrite Ht. reflexivity.
Qed.

Lemma exhausted_retries_need_an_open_witness :
  reconnectAttempts
    (run [Connect false true; Error; Close 1006; RetryTimer 0 false true]
       (run (replicate 5 (Close 1006)) (initialState 0)))
  = 5%nat.
Proof.
  refine (proj1 (exhausted_retries_need_an_open
                   [Connect false true; Error; Close 1006;
                    RetryTimer 0 false true]
                   (run (replicate 5 (Close 1006)) (initialState 0))
                   1006 _ _)).
  - reflexivity.
  - repeat constructor.
Defined.

(** * Properties of the statistics and of the formatting *)

Lemma filter_none {A} (P : A -> Prop) `{!forall x, Decision (P x)}
    (l : list A) :
  (forall x, x ∈ l -> ~ P x) -> filter P l = [].
Proof.
  induction l as [| a l IH]; intros Hno; [reflexivity |].
  rewrite filter_cons_False by (apply Hno; left).
  apply IH. intros x Hx. apply Hno. right. exact Hx.
Qed.

Lemma state_partition (m : list ParkingSlot) :
  (length (filter (fun slot => state slot = Some free
                               \/ state slot = Some available) m)
   + length (filter (fun slot => state slot = Some occupied) m)
   + length (filter (fun slot => state slot = None) m)
   = length m)%nat.
Proof.
  induction m as [| a m IH]; [reflexivity |].
  rewrite !filter_cons.
  destruct (state a) as [[| |]|] eqn:Hs;
    repeat case_decide; simpl; try lia;
    exfalso; intuition congruence.
Qed.

(** X16: in the statistics every slot under analysis is counted exactly once
    as free (state [free] or [available]), as occupied, or as neither when it
    has no state; so free and occupied never add up to more than the total,
    and they add up to the total when every slot has a state. *)
Theorem stats_partition (selectedFloor : option Z) (l : list ParkingSlot) :
  (freeSlots selectedFloor l + occupiedSlots selectedFloor l
   + length (filter (fun slot => state slot = None)
                    (slotsToAnalyze selectedFloor l))
   = totalSlots selectedFloor l)%nat
  /\ (freeSlots selectedFloor l + occupiedSlots selectedFloor l
      <= totalSlots selectedFloor l)%nat
  /\ (Forall (fun slot => is_Some (state slot)) l ->
        (freeSlots selectedFloor l + occupiedSlots selectedFloor l
         = totalSlots selectedFloor l)%nat).
Proof.
  unfold freeSlots, occupiedSlots, totalSlots.
  pose proof (state_partition (slotsToAnalyze selectedFloor l)) as Hpart.
  split; [exact Hpart |]. split; [lia |].
  intros Hall.
  assert (Hnone : filter (fun slot => state slot = None)
                         (slotsToAnalyze selectedFloor l) = []).
  { apply filter_none. intros slot Hin Hs.
    assert (Hl : slot ∈ l).
    { unfold slotsToAnalyze, getSlotsForFloor in Hin.
      destruct selectedFloor as [fl|]; [| exact Hin].
      destruct (falsy fl); [exact Hin |].
      apply list_elem_of_filter in Hin. apply Hin. }
    apply (proj1 (Forall_forall _ _) Hall slot) in Hl.
    rewrite Hs in Hl. destruct Hl as [x Hx]. discriminate. }
  rewrite Hnone in Hpart. simpl in Hpart. lia.
Qed.

Lemma stats_partition_witness :
  (freeSlots None [slotA1; availableSlot; freeSlot]
   + occupiedSlots None [slotA1; availableSlot; freeSlot]
   = totalSlots None [slotA1; availableSlot; freeSlot])%nat.
Proof.
  refine (proj2 (proj2 (stats_partition None
                          [slotA1; availableSlot; freeSlot])) _).
  repeat constructor; eexists; reflexivity.
Defined.

(** X17: the floor filter.  A selected floor of 0 is falsy and therefore
    shows every slot, like no selection at all; any other selected floor keeps
    exactly the slots whose [floor] is that number (slots without a floor are
    dropped), in their order, and filtering twice is filtering once. *)
Theorem floor_selection (fl : Z) (l : list ParkingSlot) :
  slotsToAnalyze (Some 0) l = l
  /\ slotsToAnalyze None l = l
  /\ (fl <> 0 ->
        (forall slot, slot ∈ slotsToAnalyze (Some fl) l
                      <-> floor slot = Some fl /\ slot ∈ l)
        /\ slotsToAnalyze (Some fl) l `sublist_of` l
        /\ slotsToAnalyze (Some fl) (slotsToAnalyze (Some fl) l)
           = slotsToAnalyze (Some fl) l
        /\ (totalSlots (Some fl) l <= totalSlots None l)%nat).
Proof.
  split; [reflexivity |]. split; [reflexivity |].
  intros Hfl. unfold totalSlots, slotsToAnalyze.
  assert (Hf : falsy fl = false) by (apply Z.eqb_neq; exact Hfl).
  rewrite Hf. unfold getSlotsForFloor. split; [| split; [| split]].
  - intros slot.
    apply (list_elem_of_filter (fun s => floor s = Some fl) l slot).
  - apply sublist_filter.
  - rewrite list_filter_filter. apply list_filter_iff. intros slot. tauto.
  - apply length_filter.
Qed.

Lemma floor_selection_witness :
  slotsToAnalyze (Some 2) (slotsToAnalyze (Some 2) [slotA1; freeSlot])
  = slotsToAnalyze (Some 2) [slotA1; freeSlot].
Proof.
  refine (proj1 (proj2 (proj2 (proj2 (proj2
            (floor_selection 2 [slotA1; freeSlot])) _)))).
  discriminate.
Defined.

Lemma floor_partition (l : list ParkingSlot) :
  (length (filter (fun slot => floor slot = Some 1%Z) l)
   + length (filter (fun slot => floor slot = Some 2%Z) l)
   + length (filter (fun slot => floor slot = Some 3%Z) l)
   + length (offFloors l)
   = length l)%nat.
Proof.
  unfold offFloors. induction l as [| a l IH]; [reflexivity |].
  rewrite !filter_cons.
  repeat case_decide; simpl; try lia; exfalso;
    repeat match goal with
           | H : ~ (_ /\ _) |- _ => apply H; clear H
           | H : _ /\ _ |- _ => destruct H
           end; try congruence; repeat split; congruence.
Qed.

Lemma floorStat_rate (l : list ParkingSlot) fl :
  (fs_occupancyRate (floorStat l fl) = None
   <-> fs_totalSlots (floorStat l fl) = 0%nat)
  /\ (fs_freeSlots (floorStat l fl) + fs_occupiedSlots (floorStat l fl)
      <= fs_totalSlots (floorStat l fl))%nat.
Proof.
  unfold floorStat. simpl. split.
  - destruct (length (filter (fun slot => floor slot = Some fl) l));
      simpl; split; intros; try reflexivity; discriminate.
  - pose proof (state_partition
                  (filter (fun slot => floor slot = Some fl) l)). lia.
Qed.

(** X18: the per-floor statistics always have exactly the three entries for
    floors 1, 2 and 3, in that order.  Every slot is counted in at most one of
    them: the three totals plus the number of slots on no or another floor is
    the size of the store.  An entry's occupancy rate is the undefined
    quotient 0/0 exactly when no slot is on that floor (there is no guard as
    in the overall statistics), and its free and occupied counts never exceed
    its total. *)
Theorem floor_stats_partition (l : list ParkingSlot) :
  fs_floor <$> floorStats l = [1; 2; 3]
  /\ (sum_list (fs_totalSlots <$> floorStats l) + length (offFloors l)
      = length l)%nat
  /\ (Forall (fun slot => floor slot = Some 1 \/ floor slot = Some 2
                          \/ floor slot = Some 3) l ->
        sum_list (fs_totalSlots <$> floorStats l) = length l)
  /\ Forall (fun fs =>
               (fs_occupancyRate fs = None <-> fs_totalSlots fs = 0%nat)
               /\ (fs_freeSlots fs + fs_occupiedSlots fs
                   <= fs_totalSlots fs)%nat)
            (floorStats l).
Proof.
  assert (Hsum : (sum_list (fs_totalSlots <$> floorStats l)
                  + length (offFloors l) = length l)%nat).
  { pose proof (floor_partition l) as Hp. unfold floorStats. simpl.
    simpl in Hp. lia. }
  split; [reflexivity |]. split; [exact Hsum |]. split.
  - intros Hall.
    assert (Hoff : offFloors l = []).
    { unfold offFloors. apply filter_none. intros slot Hin (H1 & H2 & H3).
      apply (proj1 (Forall_forall _ _) Hall slot) in Hin. tauto. }
    rewrite Hoff, Nat.add_0_r in Hsum. exact Hsum.
  - unfold floorStats. repeat constructor; apply floorStat_rate.
Qed.

Lemma floor_stats_partition_witness :
  sum_list (fs_totalSlots <$> floorStats [slotA1; freeSlot]) = 2%nat.
Proof.
  refine (proj1 (proj2 (proj2 (floor_stats_partition [slotA1; freeSlot]))) _).
  repeat constructor; simpl; tauto.
Defined.

Lemma percentage_bounds (o t : Z) :
  0 <= o <= t -> 0 < t ->
  (0 <= inject_Z o / inject_Z t * 100)%Q
  /\ (inject_Z o / inject_Z t * 100 <= 100)%Q.
Proof.
  intros [Ho Hot] Ht.
  assert (Htq : (inject_Z 0 < inject_Z t)%Q)
    by (rewrite <- Zlt_Qlt; exact Ht).
  assert (Hoq : (inject_Z 0 <= inject_Z o)%Q)
    by (rewrite <- Zle_Qle; exact Ho).
  assert (Hotq : (inject_Z o <= inject_Z t)%Q)
    by (rewrite <- Zle_Qle; exact Hot).
  split.
  - apply Qmult_le_0_compat; [| discriminate].
    apply Qle_shift_div_l; [exact Htq |].
    rewrite Qmult_0_l. exact Hoq.
  - change 100%Q with (1 * 100)%Q at 2.
    apply Qmult_le_compat_r; [| discriminate].
    apply Qle_shift_div_r; [exact Htq |].
    rewrite Qmult_1_l. exact Hotq.
Qed.

(** X19: the occupancy rate of the overall statistics is a percentage: it
    always lies between 0 and 100, it is 0 when there is no slot to analyse
    (the guard against dividing by zero), and it is 100 when there is at
    least one analysed slot and all of them are occupied. *)
Theorem occupancy_rate_is_a_percentage (selectedFloor : option Z)
    (l : list ParkingSlot) :
  (0 <= occupancyRate selectedFloor l)%Q
  /\ (occupancyRate selectedFloor l <= 100)%Q
  /\ (totalSlots selectedFloor l = 0%nat ->
        occupancyRate selectedFloor l = 0%Q)
  /\ (totalSlots selectedFloor l <> 0%nat ->
        occupiedSlots selectedFloor l = totalSlots selectedFloor l ->
        (occupancyRate selectedFloor l == 100)%Q).
Proof.
  unfold occupancyRate.
  assert (Hle : (occupiedSlots selectedFloor l
                 <= totalSlots selectedFloor l)%nat)
    by apply length_filter.
  destruct (Nat.ltb_spec 0 (totalSlots selectedFloor l)) as [Hpos | Hzero].
  - destruct (percentage_bounds
                (Z.of_nat (occupiedSlots selectedFloor l))
                (Z.of_nat (totalSlots selectedFloor l))) as [Hlo Hhi];
      [lia | lia |].
    split; [exact Hlo |]. split; [exact Hhi |]. split; [lia |].
    intros _ ->. field. intros Hq.
    unfold Qeq in Hq. simpl in Hq. lia.
  - split; [discriminate |]. split; [discriminate |].
    split; [reflexivity |]. intros Hne. lia.
Qed.

Lemma occupancy_rate_is_a_percentage_witness :
  (occupancyRate (Some 1%Z) [slotA1; freeSlot] == 100)%Q.
Proof.
  refine (proj2 (proj2 (proj2 (occupancy_rate_is_a_percentage (Some 1)
                                 [slotA1; freeSlot]))) _ _).
  - discriminate.
  - reflexivity.
Defined.

Lemma slotsToAnalyze_filter_skip (P : ParkingSlot -> Prop)
    `{!forall x, Decision (P x)} selectedFloor
    (before after : list ParkingSlot) slot :
  ~ P slot ->
  filter P (slotsToAnalyze selectedFloor (before ++ slot :: after))
  = filter P (slotsToAnalyze selectedFloor (before ++ after)).
Proof.
  intros Hnot.
  assert (Hplain : forall (R : ParkingSlot -> Prop)
                          `{!forall x, Decision (R x)},
            ~ R slot ->
            filter R (before ++ slot :: after) = filter R (before ++ after)).
  { intros R HR HnR. rewrite !filter_app, filter_cons_False by exact HnR.
    reflexivity. }
  unfold slotsToAnalyze, getSlotsForFloor.
  destruct selectedFloor as [fl|]; [| apply Hplain, Hnot].
  destruct (falsy fl); [apply Hplain, Hnot |].
  rewrite !list_filter_filter. apply Hplain. tauto.
Qed.

(** X20: the average occupancy time is taken over the occupied slots whose
    [duration] is present and not 0 only.  A slot that is not occupied, or an
    occupied one that has just arrived ([duration] 0) or has no [duration],
    can be added to or removed from the store without changing the average;
    and the average is 0 when no slot qualifies. *)
Theorem average_ignores_fresh_arrivals (selectedFloor : option Z)
    (before after : list ParkingSlot) (slot : ParkingSlot) :
  (state slot <> Some occupied \/ truthy (duration slot) = false ->
     averageOccupancyTime selectedFloor (before ++ slot :: after)
     = averageOccupancyTime selectedFloor (before ++ after))
  /\ (occupiedSlotsWithDuration selectedFloor before = [] ->
        averageOccupancyTime selectedFloor before = 0%Q).
Proof.
  split.
  - intros Hskip. unfold averageOccupancyTime, occupiedSlotsWithDuration.
    rewrite slotsToAnalyze_filter_skip; [reflexivity |].
    intros [Hocc Hdur]. destruct Hskip; congruence.
  - intros Hnone. unfold averageOccupancyTime. rewrite Hnone. reflexivity.
Qed.

Lemma average_ignores_fresh_arrivals_witness :
  averageOccupancyTime None
    ([with_duration slotA1 40] ++ with_duration slotA1 0 :: [freeSlot])
  = averageOccupancyTime None ([with_duration slotA1 40] ++ [freeSlot]).
Proof.
  refine (proj1 (average_ignores_fresh_arrivals None
                   [with_duration slotA1 40] [freeSlot]
                   (with_duration slotA1 0)) _).
  right. reflexivity.
Defined.

(** X21: [formatDuration] prints a duration below 60 as that number of
    minutes (also when it is 0 or negative) and a duration of 60 or more as
    hours and minutes that recombine to the duration, with at least one hour
    and between 0 and 59 minutes: the floor quotient and the
    sign-of-the-dividend remainder are only ever taken of a positive
    number. *)
Theorem formatDuration_splits_hours (minutes : Z) :
  (minutes < 60 ->
     formatDuration minutes = String.append (showNumber minutes) "m")
  /\ (60 <= minutes ->
        exists h m,
          formatDuration minutes
          = String.append (showNumber h)
              (String.append "h " (String.append (showNumber m) "m"))
          /\ 1 <= h /\ 0 <= m < 60 /\ 60 * h + m = minutes).
Proof.
  unfold formatDuration. split.
  - intros Hlt. destruct (Z.ltb_spec minutes 60); [reflexivity | lia].
  - intros Hge. destruct (Z.ltb_spec minutes 60); [lia |].
    exists (minutes / 60), (Z.rem minutes 60).
    rewrite Z.rem_mod_nonneg by lia.
    pose proof (Z.div_mod minutes 60). pose proof (Z.mod_pos_bound minutes 60).
    assert (1 <= minutes / 60) by (apply Z.div_le_lower_bound; lia).
    repeat split; lia.
Qed.

Lemma formatDuration_splits_hours_witness :
  formatDuration 45 = "45m".
Proof.
  refine (proj1 (formatDuration_splits_hours 45) _). lia.
Defined.

(** * The ids of the store along a run *)





(** * The states a tick can produce *)

Lemma driftSlot_state now random slot :
  state (driftSlot now random slot) = state slot
  \/ state (driftSlot now random slot) = Some free
  \/ state (driftSlot now random slot) = Some occupied.
Proof.
  unfold driftSlot. destruct (Qltb random (changeProbability slot)); simpl;
    [| left; reflexivity].
  destruct (decide (state slot = Some free)); auto.
Qed.

(** X23: a tick never produces the state [available], nor a missing state.
    A slot is [available] after a tick only if it was [available] before and
    did not flip; and a store that holds only [free] and [occupied] slots, as
    the older variant of the component always does, still holds only such
    slots after every tick. *)
Theorem drift_stays_free_or_occupied (now : Z) (random : nat -> Q)
    (l : list ParkingSlot) :
  (forall i slot', driftSlots now random l !! i = Some slot' ->
     state slot' <> Some free -> state slot' <> Some occupied ->
     exists slot, l !! i = Some slot /\ state slot = state slot'
                  /\ slot' = with_duration slot (newDuration slot))
  /\ (Forall freeOrOccupied l ->
        Forall freeOrOccupied
          (simulateRealisticParking_standalone now random l)).
Proof.
  split.
  - intros i slot' Hi Hnf Hno. unfold driftSlots in Hi.
    rewrite list_lookup_imap in Hi.
    destruct (l !! i) as [slot|]; [| discriminate]. simpl in Hi.
    injection Hi as <-. exists slot. split; [reflexivity |].
    unfold driftSlot in *.
    destruct (Qltb (random i) (changeProbability slot)); simpl in *.
    + destruct (decide (state slot = Some free)); congruence.
    + split; reflexivity.
  - intros Hall. unfold simulateRealisticParking_standalone, driftSlots.
    apply Forall_lookup. intros i slot' Hi. rewrite list_lookup_imap in Hi.
    destruct (l !! i) as [slot|] eqn:Hl; [| discriminate]. simpl in Hi.
    injection Hi as <-.
    pose proof (proj1 (Forall_lookup _ _) Hall i slot Hl) as Hslot.
    unfold freeOrOccupied in *.
    destruct (driftSlot_state now (random i) slot) as [-> | [-> | ->]]; auto.
Qed.

Lemma drift_stays_free_or_occupied_witness :
  Forall freeOrOccupied
    (simulateRealisticParking_standalone 60005 (fun _ => 0%Q)
       [slotA1; freeSlot]).
Proof.
  refine (proj2 (drift_stays_free_or_occupied 60005 (fun _ => 0%Q)
                   [slotA1; freeSlot]) _).
  apply Forall_cons. split; [right; reflexivity |].
  apply Forall_cons. split; [left; reflexivity | apply Forall_nil_2].
Defined.
